(** * Resilience gate of the API gateway: bulkhead and circuit breaker

    Shallow embedding of the two classes of
    [09-bulkhead-pattern/gateway-with-bulkhead.js] and of the combined
    gateway (bulkhead + circuit breaker):

    - [Bulkhead]  : [class Bulkhead], its [execute] cut at its [await]s;
    - [CircuitBreaker] : [class CircuitBreaker];
    - [Gateway]   : the request handler of [/gateway/slow-process], which
      nests [slowBulkhead.execute] inside [slowCircuitBreaker.execute].

    JavaScript numbers that count things ([activeRequests], the metrics
    counters, [failureCount]) and the millisecond clock [Date.now()] are
    integers here ([Z]), which is what they are in a double below 2^53;
    the one quotient, [averageResponseTime], is an exact rational ([Q])
    where the code divides doubles.  Every read of [Date.now()] is an
    explicit argument [now].

    An [async] method runs in pieces: from its call to its first
    [await], and from the settling of each awaited promise to the next
    [await] or to the end.  Each piece is one function on the state,
    named after the method. *)

From Stdlib Require Import String ZArith List Lia Bool QArith Permutation.
Import ListNotations.
Local Open Scope Z_scope.

(** ** Small list helpers used by both classes *)

(** [Array.prototype.reduce((a, b) => a + b, 0)] *)
Definition sum (l : list Z) : Z := fold_left Z.add l 0.

(** A call of [execute] is named by its ordinal: the value of
    [metrics.totalRequests] right after the call incremented it. *)
Definition call := Z.

(** Look a suspended call up in the list of calls awaiting [fn()]. *)
Fixpoint lookup (c : call) (l : list (call * Z)) : option Z :=
  match l with
  | [] => None
  | (c', st) :: l' => if Z.eqb c c' then Some st else lookup c l'
  end.

Fixpoint remove_call (c : call) (l : list (call * Z)) : list (call * Z) :=
  match l with
  | [] => []
  | (c', st) :: l' => if Z.eqb c c' then l' else (c', st) :: remove_call c l'
  end.

(** * The bulkhead *)

Module Bulkhead.

(** [this.metrics] *)
Record Metrics := mkMetrics {
  totalRequests : Z;
  successfulRequests : Z;
  failedRequests : Z;
  rejectedRequests : Z;
  averageResponseTime : Q;
  responseTimes : list Z
}.

(** The fields of a [Bulkhead] object.  [queuedRequests] holds the
    [resolve] closures pushed by
    [await new Promise(resolve => this.queuedRequests.push(resolve))],
    each named by the call that pushed it. *)
Record t := mk {
  name : string;
  maxConcurrent : Z;
  maxQueue : Z;
  activeRequests : Z;
  queuedRequests : list call;
  metrics : Metrics
}.

(** [constructor(name, maxConcurrent = 5, maxQueue = 20)] *)
Definition new (name : string) (maxConcurrent maxQueue : Z) : t :=
  {| name := name;
     maxConcurrent := maxConcurrent;
     maxQueue := maxQueue;
     activeRequests := 0;
     queuedRequests := [];
     metrics := {| totalRequests := 0; successfulRequests := 0;
                   failedRequests := 0; rejectedRequests := 0;
                   averageResponseTime := 0%Q; responseTimes := [] |} |}.

Definition set_metrics (m : Metrics) (b : t) : t :=
  mk (name b) (maxConcurrent b) (maxQueue b) (activeRequests b)
     (queuedRequests b) m.

Definition set_active (a : Z) (b : t) : t :=
  mk (name b) (maxConcurrent b) (maxQueue b) a (queuedRequests b) (metrics b).

Definition set_queue (q : list call) (b : t) : t :=
  mk (name b) (maxConcurrent b) (maxQueue b) (activeRequests b) q (metrics b).

(** [this.metrics.totalRequests++] *)
Definition count_total (m : Metrics) : Metrics :=
  mkMetrics (totalRequests m + 1) (successfulRequests m) (failedRequests m)
            (rejectedRequests m) (averageResponseTime m) (responseTimes m).

(** [this.metrics.rejectedRequests++] *)
Definition count_rejected (m : Metrics) : Metrics :=
  mkMetrics (totalRequests m) (successfulRequests m) (failedRequests m)
            (rejectedRequests m + 1) (averageResponseTime m) (responseTimes m).

(** [this.metrics.failedRequests++] (the [catch] block) *)
Definition count_failed (m : Metrics) : Metrics :=
  mkMetrics (totalRequests m) (successfulRequests m) (failedRequests m + 1)
            (rejectedRequests m) (averageResponseTime m) (responseTimes m).

(** The arithmetic mean the code computes:
    [responseTimes.reduce((a, b) => a + b, 0) / responseTimes.length]. *)
Definition mean (l : list Z) : Q :=
  (inject_Z (sum l) / inject_Z (Z.of_nat (length l)))%Q.

(** The three statements after [await fn()] in the [try] block. *)
Definition count_success (responseTime : Z) (m : Metrics) : Metrics :=
  let rts := responseTimes m ++ [responseTime] in
  mkMetrics (totalRequests m) (successfulRequests m + 1) (failedRequests m)
            (rejectedRequests m) (mean rts) rts.

(** The part of the event loop a bulkhead lives in: the object itself,
    the jobs of the waiters whose promise has been resolved and whose
    continuation (the code after [await new Promise(...)]) has not run
    yet, oldest first, and the calls suspended at [await fn()] together
    with their local [startTime]. *)
Record Runtime := mkRuntime {
  self : t;
  jobs : list call;
  awaiting : list (call * Z)
}.

Definition start (b : t) : Runtime := mkRuntime b [] [].

(** What happened to a call when it entered [execute]. *)
Inductive entry :=
| Rejected              (* threw "is at capacity" *)
| Queued (c : call)     (* suspended on the promise whose resolver it queued *)
| Started (c : call).  (* went on to [fn()] at once *)

(** [this.activeRequests++], then the [try] block up to [await fn()]. *)
Definition execute_run (c : call) (now : Z) (r : Runtime) : Runtime :=
  mkRuntime (set_active (activeRequests (self r) + 1) (self r))
            (jobs r)
            (awaiting r ++ [(c, now)]).

(** [execute(fn)] from its first statement to its first [await]. *)
Definition execute (now : Z) (r : Runtime) : Runtime * entry :=
  let b := set_metrics (count_total (metrics (self r))) (self r) in
  let c := totalRequests (metrics b) in
  if (maxConcurrent b <=? activeRequests b)
     && (maxQueue b <=? Z.of_nat (length (queuedRequests b)))
  then
    (mkRuntime (set_metrics (count_rejected (metrics b)) b)
               (jobs r) (awaiting r),
     Rejected)
  else if maxConcurrent b <=? activeRequests b then
    (mkRuntime (set_queue (queuedRequests b ++ [c]) b) (jobs r) (awaiting r),
     Queued c)
  else
    (execute_run c now (mkRuntime b (jobs r) (awaiting r)), Started c).

(** The [finally] block: [this.activeRequests--], then
    [const resolve = this.queuedRequests.shift(); if (resolve) resolve()].
    Resolving the promise only schedules the waiter's continuation. *)
Definition execute_finally (r : Runtime) : Runtime :=
  let b := set_active (activeRequests (self r) - 1) (self r) in
  match queuedRequests b with
  | [] => mkRuntime b (jobs r) (awaiting r)
  | w :: q => mkRuntime (set_queue q b) (jobs r ++ [w]) (awaiting r)
  end.

(** The continuation of call [c] after [await fn()]: [ok] tells whether
    the promise of [fn()] was fulfilled or rejected, [startTime] is the
    local read before the call and [now] the clock afterwards. *)
Definition execute_settle (c : call) (startTime : Z) (ok : bool) (now : Z)
                  (r : Runtime) : Runtime :=
  let m := metrics (self r) in
  let m' := if ok then count_success (now - startTime) m
            else count_failed m in
  execute_finally (mkRuntime (set_metrics m' (self r)) (jobs r)
                     (remove_call c (awaiting r))).

(** What the event loop can do to a bulkhead. *)
Inductive event :=
| Call (now : Z)                          (* a handler calls [execute] *)
| Wake (now : Z)                          (* the oldest woken waiter runs on *)
| Settle (c : call) (ok : bool) (now : Z). (* [fn()] of call [c] settles *)

(** What an event did, for the properties that speak about the order
    of things. *)
Inductive action :=
| DidReject (c : call)
| DidQueue (c : call)
| DidStart (c : call)
| DidResume (c : call)
| DidFinish (c : call) (ok : bool).

(** One turn.
    [Call]: both gateways call [execute] from an Express request
    handler, that is from a task of the event loop.  The continuation
    of a woken waiter is a promise job, queued by [resolve()] from
    within a job, and the job queue is emptied before the next task
    starts: a [Call] finds no woken waiter still waiting for its
    continuation.
    [Wake]: the continuation of the oldest woken waiter runs.
    [Settle]: the promise of [fn()] of a running call settles and the
    rest of its [try]/[catch]/[finally] runs. *)
Definition step (e : event) (r : Runtime) : option (Runtime * action) :=
  match e with
  | Call now =>
      match jobs r with
      | [] =>
          let (r', a) := execute now r in
          let c := totalRequests (metrics (self r')) in
          Some (r', match a with
                    | Rejected => DidReject c
                    | Queued c => DidQueue c
                    | Started c => DidStart c
                    end)
      | _ :: _ => None
      end
  | Wake now =>
      match jobs r with
      | [] => None
      | c :: js =>
          Some (execute_run c now (mkRuntime (self r) js (awaiting r)), DidResume c)
      end
  | Settle c ok now =>
      match lookup c (awaiting r) with
      | None => None
      | Some startTime => Some (execute_settle c startTime ok now r, DidFinish c ok)
      end
  end.

(** A sequence of turns, with the log of what each did. *)
Fixpoint run (es : list event) (r : Runtime) : option (Runtime * list action) :=
  match es with
  | [] => Some (r, [])
  | e :: es' =>
      match step e r with
      | None => None
      | Some (r', a) =>
          match run es' r' with
          | None => None
          | Some (r'', log) => Some (r'', a :: log)
          end
      end
  end.

(** The states a bulkhead built by [new Bulkhead(n, mc, mq)] can be in. *)
Definition reachable (n : string) (mc mq : Z) (r : Runtime) : Prop :=
  exists es log, run es (start (new n mc mq)) = Some (r, log).

(** The invariant behind the bounds: every call counted in
    [activeRequests] is suspended at [await fn()], and the slots in use
    plus the slots promised to woken waiters never exceed the limit. *)
Record inv (mc mq : Z) (r : Runtime) : Prop := mkInv {
  inv_mc : maxConcurrent (self r) = mc;
  inv_mq : maxQueue (self r) = mq;
  inv_active : activeRequests (self r) = Z.of_nat (length (awaiting r));
  inv_slots : activeRequests (self r) + Z.of_nat (length (jobs r)) <= mc;
  inv_queue : Z.of_nat (length (queuedRequests (self r))) <= mq
}.

(** The samples are those of the successful calls, and the average is
    their mean. *)
Record metrics_inv (m : Metrics) : Prop := mkMetricsInv {
  mi_empty : responseTimes m = [] -> averageResponseTime m = 0%Q;
  mi_mean : responseTimes m <> [] -> averageResponseTime m = mean (responseTimes m);
  mi_count : Z.of_nat (length (responseTimes m)) = successfulRequests m
}.

(** Limits 2 and 1 and four calls at once: two run, one is queued, one
    is rejected. *)
Definition scenarioA : list event := [Call 0; Call 0; Call 0; Call 0].

(** Limits 2 and 1 with both slots taken and the queue full. *)
Definition saturated : Runtime :=
  mkRuntime (mk "slow-service" 2 1 2 [3] (mkMetrics 3 0 0 0 0%Q []))
            [] [(1, 0); (2, 0)].

(** Limits 1 and 1: the running call has finished and woken the queued
    one, whose continuation has not run yet. *)
Definition woken : Runtime :=
  mkRuntime (mk "slow-service" 1 1 0 [] (mkMetrics 2 1 0 0 (mean [10]) [10]))
            [2] [].

(** The waiters of a log, in the order they were queued. *)
Definition queued_of (log : list action) : list call :=
  flat_map (fun a => match a with DidQueue c => [c] | _ => [] end) log.

(** The waiters of a log, in the order they were admitted: the order
    in which their continuations ran. *)
Definition resumed_of (log : list action) : list call :=
  flat_map (fun a => match a with DidResume c => [c] | _ => [] end) log.

(** [x] occurs in [l], and [y] occurs later. *)
Definition before (x y : call) (l : list call) : Prop :=
  exists l1 l2 l3, l = l1 ++ x :: l2 ++ y :: l3.

(** Limits 1 and 2: one call runs, two wait, and each completion lets
    the next one in. *)
Definition three_in_a_row : list event :=
  [Call 0; Call 1; Call 2; Settle 1 true 10; Wake 10; Settle 2 true 20;
   Wake 20].

(** One call that is admitted and whose [fn()] then rejects. *)
Definition one_failure : list event := [Call 0; Settle 1 false 40].

(** ** The rest of the class and what its properties speak of *)

(** The object [getStatus()] returns; [st_queuedRequests] is
    [this.queuedRequests.length]. *)
Record Status := mkStatus {
  st_name : string;
  st_activeRequests : Z;
  st_maxConcurrent : Z;
  st_queuedRequests : Z;
  st_maxQueue : Z;
  st_metrics : Metrics
}.

(** [getStatus()] *)
Definition getStatus (b : t) : Status :=
  {| st_name := name b;
     st_activeRequests := activeRequests b;
     st_maxConcurrent := maxConcurrent b;
     st_queuedRequests := Z.of_nat (length (queuedRequests b));
     st_maxQueue := maxQueue b;
     st_metrics := metrics b |}.

(** Every call is somewhere: rejected, done, running, woken or queued;
    and nobody waits while a slot is free. *)
Record books (r : Runtime) : Prop := mkBooks {
  bk_total :
    totalRequests (metrics (self r))
    = rejectedRequests (metrics (self r))
      + successfulRequests (metrics (self r))
      + failedRequests (metrics (self r))
      + activeRequests (self r)
      + Z.of_nat (length (jobs r))
      + Z.of_nat (length (queuedRequests (self r)));
  bk_busy :
    queuedRequests (self r) <> [] ->
    activeRequests (self r) + Z.of_nat (length (jobs r))
    = maxConcurrent (self r)
}.

(** The calls of a log that went past [this.activeRequests++]. *)
Definition begun_of (log : list action) : list call :=
  flat_map (fun a => match a with
                     | DidStart c | DidResume c => [c]
                     | _ => []
                     end) log.

(** The calls of a log whose [finally] block ran. *)
Definition finished_of (log : list action) : list call :=
  flat_map (fun a => match a with DidFinish c _ => [c] | _ => [] end) log.

(** The calls begun ([began]) and finished ([done]) so far, against
    the state: no call has begun twice, none that has begun is still
    woken or queued, every ordinal in use has been handed out, and the
    calls suspended at [await fn()] are those begun and not finished. *)
Record ledger (r : Runtime) (began done : list call) : Prop := mkLedger {
  ld_nodup : NoDup (began ++ jobs r ++ queuedRequests (self r));
  ld_bound : forall c, In c (began ++ jobs r ++ queuedRequests (self r)) ->
                       c <= totalRequests (metrics (self r));
  ld_perm : Permutation (map fst (awaiting r) ++ done) began
}.

(** The value of [Date.now()] in a turn. *)
Definition time_of (e : event) : Z :=
  match e with
  | Call now | Wake now | Settle _ _ now => now
  end.

(** The clock does not go back from [t] on, turn after turn. *)
Fixpoint clock_runs_forward (t : Z) (es : list event) : bool :=
  match es with
  | [] => true
  | e :: es' => (t <=? time_of e) && clock_runs_forward (time_of e) es'
  end.

(** With nothing arriving, what the event loop does next: the oldest
    woken waiter runs on, or else the oldest running call settles, well
    or badly as [ok] says. *)
Definition next_turn (ok : call -> bool) (now : Z) (r : Runtime) : option event :=
  match jobs r, awaiting r with
  | _ :: _, _ => Some (Wake now)
  | [], (c, _) :: _ => Some (Settle c (ok c) now)
  | [], [] => None
  end.

(** At most [fuel] such turns, one after the other. *)
Fixpoint drain (fuel : nat) (ok : call -> bool) (now : Z) (r : Runtime)
  : list event :=
  match fuel with
  | O => []
  | S fuel' =>
      match next_turn ok now r with
      | None => []
      | Some e =>
          match step e r with
          | Some (r', _) => e :: drain fuel' ok now r'
          | None => []
          end
      end
  end.

(** Turns enough to let every call through: three for a queued caller
    (the completion that wakes it, its wake-up, its own completion),
    two for a woken one, one for a running one. *)
Definition work_left (r : Runtime) : nat :=
  3 * length (queuedRequests (self r)) + 2 * length (jobs r)
  + length (awaiting r).

(** Nothing runs, nothing waits. *)
Definition idle (r : Runtime) : Prop :=
  activeRequests (self r) = 0 /\ queuedRequests (self r) = [] /\
  jobs r = [] /\ awaiting r = [].

End Bulkhead.

(** * The circuit breaker *)

Module CircuitBreaker.

(** [this.state], one of the three strings the class ever assigns. *)
Inductive State := CLOSED | OPEN | HALF_OPEN.

Definition State_eqb (a b : State) : bool :=
  match a, b with
  | CLOSED, CLOSED | OPEN, OPEN | HALF_OPEN, HALF_OPEN => true
  | _, _ => false
  end.

(** [this.metrics]; an entry of [stateChanges] is [{state, timestamp}]. *)
Record Metrics := mkMetrics {
  totalAttempts : Z;
  totalFailures : Z;
  totalRejections : Z;
  stateChanges : list (State * Z)
}.

Record t := mk {
  name : string;
  state : State;
  failureCount : Z;
  failureThreshold : Z;
  nextAttempt : Z;
  timeout : Z;
  successCount : Z;
  metrics : Metrics
}.

(** [constructor(name, threshold = 5, timeout = 30000)], built at time
    [now]. *)
Definition new (name : string) (threshold timeout now : Z) : t :=
  {| name := name;
     state := CLOSED;
     failureCount := 0;
     failureThreshold := threshold;
     nextAttempt := now;
     timeout := timeout;
     successCount := 0;
     metrics := {| totalAttempts := 0; totalFailures := 0;
                   totalRejections := 0; stateChanges := [] |} |}.

Definition set_metrics (m : Metrics) (cb : t) : t :=
  mk (name cb) (state cb) (failureCount cb) (failureThreshold cb)
     (nextAttempt cb) (timeout cb) (successCount cb) m.

Definition set_failureCount (n : Z) (cb : t) : t :=
  mk (name cb) (state cb) n (failureThreshold cb)
     (nextAttempt cb) (timeout cb) (successCount cb) (metrics cb).

Definition set_nextAttempt (n : Z) (cb : t) : t :=
  mk (name cb) (state cb) (failureCount cb) (failureThreshold cb)
     n (timeout cb) (successCount cb) (metrics cb).

(** [changeState(newState)]: assigns the state and logs the change with
    its timestamp ([new Date()]). *)
Definition changeState (newState : State) (now : Z) (cb : t) : t :=
  let m := metrics cb in
  mk (name cb) newState (failureCount cb) (failureThreshold cb)
     (nextAttempt cb) (timeout cb) (successCount cb)
     (mkMetrics (totalAttempts m) (totalFailures m) (totalRejections m)
                (stateChanges m ++ [(newState, now)])).

(** [onSuccess()] *)
Definition onSuccess (now : Z) (cb : t) : t :=
  let cb := set_failureCount 0 cb in
  if State_eqb (state cb) HALF_OPEN then changeState CLOSED now cb else cb.

(** [onFailure()].  The clock is read twice when the circuit opens
    ([new Date()] in [changeState], then [Date.now()]); here both reads
    give [now], and [onFailure_reads] below keeps them apart. *)
Definition onFailure (now : Z) (cb : t) : t :=
  let m := metrics cb in
  let cb := set_metrics (mkMetrics (totalAttempts m) (totalFailures m + 1)
                                   (totalRejections m) (stateChanges m)) cb in
  let cb := set_failureCount (failureCount cb + 1) cb in
  if failureThreshold cb <=? failureCount cb then
    set_nextAttempt (now + timeout cb) (changeState OPEN now cb)
  else cb.

(** What [execute] does with [fn] before its [try] block. *)
Inductive gate :=
| Reject    (* threw "Circuit breaker is OPEN"; [fn] is not called *)
| Invoke.   (* goes on to [await fn()] *)

(** [execute(fn)] from its first statement to the call of [fn]. *)
Definition execute (now : Z) (cb : t) : t * gate :=
  let m := metrics cb in
  let cb := set_metrics (mkMetrics (totalAttempts m + 1) (totalFailures m)
                                   (totalRejections m) (stateChanges m)) cb in
  if State_eqb (state cb) OPEN then
    if now <? nextAttempt cb then
      let m := metrics cb in
      (set_metrics (mkMetrics (totalAttempts m) (totalFailures m)
                              (totalRejections m + 1) (stateChanges m)) cb,
       Reject)
    else (changeState HALF_OPEN now cb, Invoke)
  else (cb, Invoke).

(** The [try]/[catch] around [await fn()]: the promise of [fn()] was
    fulfilled ([ok]) or rejected, whatever the error. *)
Definition execute_settle (ok : bool) (now : Z) (cb : t) : t :=
  if ok then onSuccess now cb else onFailure now cb.

(** Recording failure outcomes one after the other, at the given times. *)
Definition failures (times : list Z) (cb : t) : t :=
  fold_left (fun cb now => onFailure now cb) times cb.

(** [new CircuitBreaker('slow-service', 3, 20000)], built at time 0. *)
Definition fresh_slow : t := new "slow-service" 3 20000 0.

(** The same breaker after three failures in a row. *)
Definition opened_slow : t := failures [10; 11; 12] fresh_slow.

(** ** The rest of the class and what its properties speak of *)

(** The object [getStatus()] returns; [st_nextAttempt] is
    [this.state === 'OPEN' ? new Date(this.nextAttempt) : null]. *)
Record Status := mkStatus {
  st_name : string;
  st_state : State;
  st_failureCount : Z;
  st_failureThreshold : Z;
  st_nextAttempt : option Z;
  st_metrics : Metrics
}.

(** [getStatus()] *)
Definition getStatus (cb : t) : Status :=
  {| st_name := name cb;
     st_state := state cb;
     st_failureCount := failureCount cb;
     st_failureThreshold := failureThreshold cb;
     st_nextAttempt :=
       if State_eqb (state cb) OPEN then Some (nextAttempt cb) else None;
     st_metrics := metrics cb |}.

(** What can happen to a breaker: a call enters [execute], or the
    promise of some [fn()] settles. *)
Inductive op :=
| Enter (now : Z)
| Outcome (ok : bool) (now : Z).

Definition apply (o : op) (cb : t) : t :=
  match o with
  | Enter now => fst (execute now cb)
  | Outcome ok now => execute_settle ok now cb
  end.

Definition applies (os : list op) (cb : t) : t :=
  fold_left (fun cb o => apply o cb) os cb.

(** The last entry of [metrics.stateChanges], if any. *)
Definition last_change (cb : t) : option (State * Z) :=
  last (map Some (stateChanges (metrics cb))) None.

(** One whole call of [execute] with nothing in between: [fn] is called
    at [now] unless the breaker rejects, and settles at [now']. *)
Definition call (now : Z) (ok : bool) (now' : Z) (cb : t) : t :=
  let (cb1, g) := execute now cb in
  match g with
  | Reject => cb1
  | Invoke => execute_settle ok now' cb1
  end.

(** Calls made one after the other, each over before the next. *)
Definition calls (l : list (Z * bool * Z)) (cb : t) : t :=
  fold_left (fun cb x => call (fst (fst x)) (snd (fst x)) (snd x) cb) l cb.

(** [changeState] reads the clock on its own ([new Date()]): after the
    [Date.now()] that [execute] compares with [nextAttempt], and before
    the [Date.now()] from which [onFailure] computes [nextAttempt].
    [execute] and [onFailure] above take the two reads of a turn in
    the same millisecond; these two keep them apart: [now] is what
    [Date.now()] returns and [logged] what [new Date()] does. *)
Definition execute_reads (now logged : Z) (cb : t) : t * gate :=
  let m := metrics cb in
  let cb := set_metrics (mkMetrics (totalAttempts m + 1) (totalFailures m)
                                   (totalRejections m) (stateChanges m)) cb in
  if State_eqb (state cb) OPEN then
    if now <? nextAttempt cb then
      let m := metrics cb in
      (set_metrics (mkMetrics (totalAttempts m) (totalFailures m)
                              (totalRejections m + 1) (stateChanges m)) cb,
       Reject)
    else (changeState HALF_OPEN logged cb, Invoke)
  else (cb, Invoke).

Definition onFailure_reads (logged now : Z) (cb : t) : t :=
  let m := metrics cb in
  let cb := set_metrics (mkMetrics (totalAttempts m) (totalFailures m + 1)
                                   (totalRejections m) (stateChanges m)) cb in
  let cb := set_failureCount (failureCount cb + 1) cb in
  if failureThreshold cb <=? failureCount cb then
    set_nextAttempt (now + timeout cb) (changeState OPEN logged cb)
  else cb.

(** What can happen to a breaker, with every read of the clock. *)
Inductive reads :=
| EnterAt (now logged : Z)
| SuccessAt (logged : Z)
| FailureAt (logged now : Z).

Definition apply_reads (o : reads) (cb : t) : t :=
  match o with
  | EnterAt now logged => fst (execute_reads now logged cb)
  | SuccessAt logged => onSuccess logged cb
  | FailureAt logged now => onFailure_reads logged now cb
  end.

Definition applies_reads (os : list reads) (cb : t) : t :=
  fold_left (fun cb o => apply_reads o cb) os cb.

(** Within a turn the clock does not go back from one read to the
    next. *)
Definition in_order (o : reads) : bool :=
  match o with
  | EnterAt now logged => now <=? logged
  | SuccessAt _ => true
  | FailureAt logged now => logged <=? now
  end.

(** The log of state changes tells the state, and an open circuit
    reopens for trials no sooner than [timeout0] after it was last
    opened. *)
Record log_kept (timeout0 : Z) (cb : t) : Prop := mkLogKept {
  lk_timeout : timeout cb = timeout0;
  lk_state :
    state cb = match last_change cb with
               | Some (s, _) => s
               | None => CLOSED
               end;
  lk_open :
    state cb = OPEN ->
    exists opened, last_change cb = Some (OPEN, opened) /\
                   opened + timeout0 <= nextAttempt cb
}.

(** What calls made one after the other keep true: the circuit is never
    left half open, and while it is open the failures counted are at
    the threshold or above. *)
Record settled (cb : t) : Prop := mkSettled {
  sd_state : state cb <> HALF_OPEN;
  sd_count : state cb = OPEN -> failureThreshold cb <= failureCount cb
}.

End CircuitBreaker.

(** * The gateway: breaker around bulkhead around the HTTP call *)

Module Gateway.

(** [slowCircuitBreaker] and [slowBulkhead] (or the [fast] pair). *)
Record t := mk {
  breaker : CircuitBreaker.t;
  bulkhead : Bulkhead.Runtime
}.

(** How the promise of [axios.get] settles. *)
Inductive upstream :=
| Fulfilled
| TimedOut      (* rejected with [error.code === 'ECONNABORTED'] *)
| Failed.       (* rejected with any other error *)

Definition fulfilled (u : upstream) : bool :=
  match u with Fulfilled => true | _ => false end.

(** The [status] field of the JSON answer. *)
Inductive answer :=
| Success             (* 200, [status: 'success'] *)
| CircuitOpen         (* 503, [status: 'circuit-open'] *)
| BulkheadRejected    (* 429, [status: 'bulkhead-rejected'] *)
| GatewayTimeout      (* 504, [status: 'timeout'] *)
| ServiceError.       (* 503, [status: 'error'] *)

(** The HTTP status code sent with each answer. *)
Definition status (a : answer) : Z :=
  match a with
  | Success => 200
  | CircuitOpen => 503
  | BulkheadRejected => 429
  | GatewayTimeout => 504
  | ServiceError => 503
  end.

(** What the handler has done with a request by the end of a turn. *)
Inductive outcome :=
| Replied (a : answer)   (* [res.json] / [res.status(...).json] was sent *)
| Waiting (c : call)     (* queued in the bulkhead *)
| Running (c : call)     (* the HTTP call is in flight *)
| Resumed (c : call).    (* a queued request started its HTTP call *)

Inductive event :=
| Request (now : Z)
| Wake (now : Z)
| Respond (c : call) (u : upstream) (now : Z).

(** The answer of the handler once the HTTP call has settled. *)
Definition answer_of (u : upstream) : answer :=
  match u with
  | Fulfilled => Success
  | TimedOut => GatewayTimeout
  | Failed => ServiceError
  end.

(** The handler of [/gateway/slow-process] up to its first suspension:
    it calls [slowCircuitBreaker.execute], whose [fn] calls
    [slowBulkhead.execute].  An error thrown by the bulkhead rejects the
    promise of [fn()] and so lands in the [catch] of the breaker before
    the handler sees it. *)
Definition handle (now : Z) (g : t) : t * outcome :=
  let (cb, gt) := CircuitBreaker.execute now (breaker g) in
  match gt with
  | CircuitBreaker.Reject => (mk cb (bulkhead g), Replied CircuitOpen)
  | CircuitBreaker.Invoke =>
      let (r, a) := Bulkhead.execute now (bulkhead g) in
      match a with
      | Bulkhead.Rejected =>
          (mk (CircuitBreaker.execute_settle false now cb) r, Replied BulkheadRejected)
      | Bulkhead.Queued c => (mk cb r, Waiting c)
      | Bulkhead.Started c => (mk cb r, Running c)
      end
  end.

(** One turn of the gateway for one resource.
    [Request]: a request arrives and the handler runs; as for
    [Bulkhead.step], this is a task of the event loop.
    [Wake]: the oldest woken waiter of the bulkhead runs on.
    [Respond]: the HTTP call settles; the bulkhead's continuation runs,
    then the breaker's, then the handler answers.
    The jobs of one turn read the same [Date.now()]. *)
Definition step (e : event) (g : t) : option (t * outcome) :=
  match e with
  | Request now =>
      match Bulkhead.jobs (bulkhead g) with
      | [] => Some (handle now g)
      | _ :: _ => None
      end
  | Wake now =>
      match Bulkhead.step (Bulkhead.Wake now) (bulkhead g) with
      | Some (r, Bulkhead.DidResume c) => Some (mk (breaker g) r, Resumed c)
      | _ => None
      end
  | Respond c u now =>
      match Bulkhead.step (Bulkhead.Settle c (fulfilled u) now) (bulkhead g) with
      | Some (r, _) =>
          Some (mk (CircuitBreaker.execute_settle (fulfilled u) now (breaker g)) r,
                Replied (answer_of u))
      | None => None
      end
  end.

Fixpoint run (es : list event) (g : t) : option (t * list outcome) :=
  match es with
  | [] => Some (g, [])
  | e :: es' =>
      match step e g with
      | None => None
      | Some (g', o) =>
          match run es' g' with
          | None => None
          | Some (g'', os) => Some (g'', o :: os)
          end
      end
  end.

(** [new Bulkhead('slow-service', 5, 10)] and
    [new CircuitBreaker('slow-service', 3, 20000)], built at time [now]. *)
Definition slow (now : Z) : t :=
  mk (CircuitBreaker.new "slow-service" 3 20000 now)
     (Bulkhead.start (Bulkhead.new "slow-service" 5 10)).

(** The slow gateway with its circuit open and its bulkhead idle. *)
Definition slow_opened : t :=
  mk CircuitBreaker.opened_slow
     (Bulkhead.start (Bulkhead.new "slow-service" 5 10)).

(** A gateway whose bulkhead has one slot and no queue. *)
Definition tiny (now : Z) : t :=
  mk (CircuitBreaker.new "slow-service" 3 20000 now)
     (Bulkhead.start (Bulkhead.new "slow-service" 1 0)).

(** The gateway after a sequence of turns. *)
Definition after (es : list event) (g : t) : t :=
  match run es g with
  | Some (g', _) => g'
  | None => g
  end.

(** [k] requests arriving in the same millisecond. *)
Definition burst (k : nat) : list event := repeat (Request 0) k.

(** Four requests in flight; three fail at once and open the breaker,
    the fourth succeeds five seconds later; after the cool-down a trial
    request is let through and fails. *)
Definition late_success_then_failed_trial : list event :=
  [Request 0; Request 0; Request 0; Request 0;
   Respond 1 Failed 10; Respond 2 Failed 11; Respond 3 Failed 12;
   Respond 4 Fulfilled 5000;
   Request 20500; Respond 5 Failed 20510].

(** A breaker and a bulkhead of the same name, as the gateway builds
    its two pairs (5, 10, 3, 20000 for the slow service and 20, 50, 5,
    20000 for the fast one). *)
Definition make (n : string) (mc mq threshold timeout now : Z) : t :=
  mk (CircuitBreaker.new n threshold timeout now)
     (Bulkhead.start (Bulkhead.new n mc mq)).

(** The books of the breaker and of the bulkhead agree. *)
Record agree (g : t) : Prop := mkAgree {
  ag_attempts :
    Bulkhead.totalRequests (Bulkhead.metrics (Bulkhead.self (bulkhead g)))
    + CircuitBreaker.totalRejections (CircuitBreaker.metrics (breaker g))
    = CircuitBreaker.totalAttempts (CircuitBreaker.metrics (breaker g));
  ag_failures :
    CircuitBreaker.totalFailures (CircuitBreaker.metrics (breaker g))
    = Bulkhead.failedRequests (Bulkhead.metrics (Bulkhead.self (bulkhead g)))
      + Bulkhead.rejectedRequests
          (Bulkhead.metrics (Bulkhead.self (bulkhead g)))
}.

End Gateway.

(** * The gateway with two bulkheads and no breaker *)

(** [gateway-with-bulkhead.js]: one bulkhead per service and the
    [allMetrics] the two handlers keep. *)
Module Pools.

Inductive service := Slow | Fast.

Definition other (s : service) : service :=
  match s with Slow => Fast | Fast => Slow end.

(** [allMetrics] *)
Record AllMetrics := mkAll {
  totalRequests : Z;
  slowServiceRequests : Z;
  fastServiceRequests : Z;
  slowServiceSuccess : Z;
  slowServiceFailure : Z;
  fastServiceSuccess : Z;
  fastServiceFailure : Z;
  bulkheadRejections : Z
}.

Record t := mk {
  slowServiceBulkhead : Bulkhead.Runtime;
  fastServiceBulkhead : Bulkhead.Runtime;
  allMetrics : AllMetrics
}.

(** [new Bulkhead('slow-service', 5, 10)],
    [new Bulkhead('fast-service', 20, 50)] and the zeroed [allMetrics]. *)
Definition init : t :=
  mk (Bulkhead.start (Bulkhead.new "slow-service" 5 10))
     (Bulkhead.start (Bulkhead.new "fast-service" 20 50))
     (mkAll 0 0 0 0 0 0 0 0).

Definition pool (s : service) (g : t) : Bulkhead.Runtime :=
  match s with
  | Slow => slowServiceBulkhead g
  | Fast => fastServiceBulkhead g
  end.

Definition set_pool (s : service) (r : Bulkhead.Runtime) (m : AllMetrics)
                    (g : t) : t :=
  match s with
  | Slow => mk r (fastServiceBulkhead g) m
  | Fast => mk (slowServiceBulkhead g) r m
  end.

(** [allMetrics.totalRequests++; allMetrics.slowServiceRequests++]
    (or [fastServiceRequests]). *)
Definition count_request (s : service) (m : AllMetrics) : AllMetrics :=
  match s with
  | Slow => mkAll (totalRequests m + 1) (slowServiceRequests m + 1)
                  (fastServiceRequests m) (slowServiceSuccess m)
                  (slowServiceFailure m) (fastServiceSuccess m)
                  (fastServiceFailure m) (bulkheadRejections m)
  | Fast => mkAll (totalRequests m + 1) (slowServiceRequests m)
                  (fastServiceRequests m + 1) (slowServiceSuccess m)
                  (slowServiceFailure m) (fastServiceSuccess m)
                  (fastServiceFailure m) (bulkheadRejections m)
  end.

(** [allMetrics.slowServiceSuccess++] (or [fastServiceSuccess]). *)
Definition count_success (s : service) (m : AllMetrics) : AllMetrics :=
  match s with
  | Slow => mkAll (totalRequests m) (slowServiceRequests m)
                  (fastServiceRequests m) (slowServiceSuccess m + 1)
                  (slowServiceFailure m) (fastServiceSuccess m)
                  (fastServiceFailure m) (bulkheadRejections m)
  | Fast => mkAll (totalRequests m) (slowServiceRequests m)
                  (fastServiceRequests m) (slowServiceSuccess m)
                  (slowServiceFailure m) (fastServiceSuccess m + 1)
                  (fastServiceFailure m) (bulkheadRejections m)
  end.

(** [allMetrics.slowServiceFailure++] (or [fastServiceFailure]): the
    first statement of the [catch] block, for every error. *)
Definition count_failure (s : service) (m : AllMetrics) : AllMetrics :=
  match s with
  | Slow => mkAll (totalRequests m) (slowServiceRequests m)
                  (fastServiceRequests m) (slowServiceSuccess m)
                  (slowServiceFailure m + 1) (fastServiceSuccess m)
                  (fastServiceFailure m) (bulkheadRejections m)
  | Fast => mkAll (totalRequests m) (slowServiceRequests m)
                  (fastServiceRequests m) (slowServiceSuccess m)
                  (slowServiceFailure m) (fastServiceSuccess m)
                  (fastServiceFailure m + 1) (bulkheadRejections m)
  end.

(** [allMetrics.bulkheadRejections++], when the message of the error
    includes "Bulkhead". *)
Definition count_rejection (m : AllMetrics) : AllMetrics :=
  mkAll (totalRequests m) (slowServiceRequests m) (fastServiceRequests m)
        (slowServiceSuccess m) (slowServiceFailure m) (fastServiceSuccess m)
        (fastServiceFailure m) (bulkheadRejections m + 1).

(** A handler up to its first suspension: it counts the request and
    calls [execute] of its bulkhead; when the bulkhead throws, the
    [catch] block of the handler counts a failure and a rejection and
    answers 429. *)
Definition handle (s : service) (now : Z) (g : t) : t * Gateway.outcome :=
  let m := count_request s (allMetrics g) in
  let (r, a) := Bulkhead.execute now (pool s g) in
  match a with
  | Bulkhead.Rejected =>
      (set_pool s r (count_rejection (count_failure s m)) g,
       Gateway.Replied Gateway.BulkheadRejected)
  | Bulkhead.Queued c => (set_pool s r m g, Gateway.Waiting c)
  | Bulkhead.Started c => (set_pool s r m g, Gateway.Running c)
  end.

Inductive event :=
| Request (s : service) (now : Z)
| Wake (s : service) (now : Z)
| Respond (s : service) (c : call) (u : Gateway.upstream) (now : Z).

Definition service_of (e : event) : service :=
  match e with
  | Request s _ | Wake s _ | Respond s _ _ _ => s
  end.

(** One turn of the gateway.  A request starts a task of the event
    loop, when no woken waiter of either bulkhead is pending; the rest
    of a handler runs when its HTTP call has settled and the bulkhead
    has let the result through.  An upstream error is taken not to
    carry "Bulkhead" in its message. *)
Definition step (e : event) (g : t) : option (t * Gateway.outcome) :=
  match e with
  | Request s now =>
      match Bulkhead.jobs (slowServiceBulkhead g),
            Bulkhead.jobs (fastServiceBulkhead g) with
      | [], [] => Some (handle s now g)
      | _, _ => None
      end
  | Wake s now =>
      match Bulkhead.step (Bulkhead.Wake now) (pool s g) with
      | Some (r, Bulkhead.DidResume c) =>
          Some (set_pool s r (allMetrics g) g, Gateway.Resumed c)
      | _ => None
      end
  | Respond s c u now =>
      match Bulkhead.step (Bulkhead.Settle c (Gateway.fulfilled u) now)
                          (pool s g) with
      | Some (r, _) =>
          Some (set_pool s r
                  (if Gateway.fulfilled u
                   then count_success s (allMetrics g)
                   else count_failure s (allMetrics g)) g,
                Gateway.Replied (Gateway.answer_of u))
      | None => None
      end
  end.

Fixpoint run (es : list event) (g : t) : option (t * list Gateway.outcome) :=
  match es with
  | [] => Some (g, [])
  | e :: es' =>
      match step e g with
      | None => None
      | Some (g', o) =>
          match run es' g' with
          | None => None
          | Some (g'', os) => Some (g'', o :: os)
          end
      end
  end.

(** What [allMetrics] says of one service, and what its bulkhead says. *)
Definition requests_of (s : service) (m : AllMetrics) : Z :=
  match s with Slow => slowServiceRequests m | Fast => fastServiceRequests m end.

Definition successes_of (s : service) (m : AllMetrics) : Z :=
  match s with Slow => slowServiceSuccess m | Fast => fastServiceSuccess m end.

Definition failures_of (s : service) (m : AllMetrics) : Z :=
  match s with Slow => slowServiceFailure m | Fast => fastServiceFailure m end.

Definition books_of (s : service) (g : t) : Bulkhead.Metrics :=
  Bulkhead.metrics (Bulkhead.self (pool s g)).

(** [allMetrics] tallies with the metrics of the two bulkheads. *)
Record tallied (g : t) : Prop := mkTallied {
  tl_total :
    totalRequests (allMetrics g)
    = slowServiceRequests (allMetrics g) + fastServiceRequests (allMetrics g);
  tl_requests : forall s,
    requests_of s (allMetrics g) = Bulkhead.totalRequests (books_of s g);
  tl_successes : forall s,
    successes_of s (allMetrics g) = Bulkhead.successfulRequests (books_of s g);
  tl_failures : forall s,
    failures_of s (allMetrics g)
    = Bulkhead.failedRequests (books_of s g)
      + Bulkhead.rejectedRequests (books_of s g);
  tl_rejections :
    bulkheadRejections (allMetrics g)
    = Bulkhead.rejectedRequests (books_of Slow g)
      + Bulkhead.rejectedRequests (books_of Fast g)
}.

(** The name and the limits each bulkhead is built with. *)
Definition name_of (s : service) : string :=
  match s with Slow => "slow-service" | Fast => "fast-service" end.

Definition slots_of (s : service) : Z :=
  match s with Slow => 5 | Fast => 20 end.

Definition places_of (s : service) : Z :=
  match s with Slow => 10 | Fast => 50 end.

(** The slow bulkhead full (five calls running, ten queued) and the
    fast one idle. *)
Definition slow_flooded : list event := repeat (Request Slow 0) 15.

(** The gateway once those fifteen requests have come in. *)
Definition flooded : t :=
  match run slow_flooded init with
  | Some (g, _) => g
  | None => init
  end.

End Pools.

(** * Properties of the bulkhead *)

Module BulkheadFacts.
Import Bulkhead.

Lemma lookup_remove_length c l st :
  lookup c l = Some st -> S (length (remove_call c l)) = length l.
Proof.
  induction l as [|[c' st'] l IH]; simpl; [discriminate|].
  destruct (Z.eqb c c'); [reflexivity|].
  intros H. simpl. now rewrite IH.
Qed.

Lemma inv_start n mc mq : 0 <= mc -> 0 <= mq -> inv mc mq (start (new n mc mq)).
Proof. intros; constructor; simpl; lia. Qed.

Lemma inv_enter mc mq now r :
  jobs r = [] -> inv mc mq r -> inv mc mq (fst (execute now r)).
Proof.
  intros Hj [Hmc Hmq Ha Hs Hq]. unfold execute. cbn [set_metrics maxConcurrent maxQueue
    activeRequests queuedRequests metrics].
  destruct (maxConcurrent (self r) <=? activeRequests (self r)) eqn:E1;
  [destruct (maxQueue (self r) <=? Z.of_nat (length (queuedRequests (self r)))) eqn:E2|];
  cbn [andb fst]; rewrite Hj in Hs; cbn [length] in Hs;
  rewrite ?Z.leb_gt in *;
  constructor; cbn; rewrite ?length_app; cbn [length]; try rewrite Hj;
  cbn [length]; lia.
Qed.

Lemma inv_begin mc mq c now w js r :
  jobs r = w :: js -> inv mc mq r ->
  inv mc mq (execute_run c now (mkRuntime (self r) js (awaiting r))).
Proof.
  intros Hj [Hmc Hmq Ha Hs Hq]. rewrite Hj in Hs. cbn [length] in Hs.
  constructor; cbn; rewrite ?length_app; cbn [length]; lia.
Qed.

Lemma inv_settle mc mq c st ok now r :
  lookup c (awaiting r) = Some st -> inv mc mq r ->
  inv mc mq (execute_settle c st ok now r).
Proof.
  intros Hl [Hmc Hmq Ha Hs Hq]. apply lookup_remove_length in Hl.
  unfold execute_settle, execute_finally. cbn [self set_metrics set_active queuedRequests
    jobs awaiting].
  destruct (queuedRequests (self r)) as [|w q] eqn:Eq;
    constructor; cbn; rewrite ?Eq, ?length_app; cbn [length] in *; lia.
Qed.

Lemma inv_step mc mq e r r' a :
  inv mc mq r -> step e r = Some (r', a) -> inv mc mq r'.
Proof.
  intros Hi. destruct e as [now|now|c ok now]; cbn [step].
  - destruct (jobs r) eqn:Hj; [|discriminate].
    pose proof (inv_enter mc mq now r Hj Hi) as H.
    destruct (execute now r) as [r1 a1]. intros [= <- _]. exact H.
  - destruct (jobs r) as [|w js] eqn:Hj; [discriminate|].
    intros [= <- _]. eapply inv_begin; eauto.
  - destruct (lookup c (awaiting r)) as [st|] eqn:Hl; [|discriminate].
    intros [= <- _]. now apply inv_settle.
Qed.

Lemma inv_run mc mq es : forall r r' log,
  inv mc mq r -> run es r = Some (r', log) -> inv mc mq r'.
Proof.
  induction es as [|e es IH]; cbn [run]; intros r r' log Hi.
  - now intros [= <- _].
  - destruct (step e r) as [[r1 a]|] eqn:Hs; [|discriminate].
    destruct (run es r1) as [[r2 l2]|] eqn:Hr; [|discriminate].
    intros [= <- _]. eapply IH; [|exact Hr]. eapply inv_step; eauto.
Qed.

Lemma inv_reachable n mc mq r :
  0 <= mc -> 0 <= mq -> reachable n mc mq r -> inv mc mq r.
Proof.
  intros Hc Hq (es & log & Hr). eapply inv_run; [|exact Hr].
  now apply inv_start.
Qed.

(** C1. Whatever sequence of calls, wake-ups and completions a bulkhead
    has gone through, [activeRequests] is neither negative nor above
    [maxConcurrent], and [queuedRequests.length] is not above
    [maxQueue]. *)
Theorem active_and_queue_bounded n mc mq r :
  0 <= mc -> 0 <= mq -> reachable n mc mq r ->
  0 <= activeRequests (self r) <= maxConcurrent (self r) /\
  Z.of_nat (length (queuedRequests (self r))) <= maxQueue (self r).
Proof.
  intros Hc Hq Hr. destruct (inv_reachable n mc mq r Hc Hq Hr)
    as [Hmc Hmq Ha Hs Hqu].
  rewrite Hmc, Hmq. lia.
Qed.

Lemma scenarioA_reachable :
  exists r, reachable "slow-service" 2 1 r /\
            activeRequests (self r) = 2 /\ queuedRequests (self r) = [3] /\
            rejectedRequests (metrics (self r)) = 1.
Proof.
  eexists. split; [exists scenarioA; eexists; vm_compute; reflexivity|].
  vm_compute. repeat split.
Qed.

Lemma active_and_queue_bounded_witness :
  exists r, reachable "slow-service" 2 1 r /\
    (0 <= activeRequests (self r) <= maxConcurrent (self r) /\
     Z.of_nat (length (queuedRequests (self r))) <= maxQueue (self r)).
Proof.
  eexists. split.
  - exists scenarioA. eexists. vm_compute. reflexivity.
  - apply (active_and_queue_bounded "slow-service" 2 1); [lia | lia |].
    exists scenarioA. eexists. vm_compute. reflexivity.
Defined.

(** Why a [Call] waits for the woken waiters.  The [finally] block
    gives the slot back before the waiter it wakes takes it again, so
    in [woken] the count is 0 although the slot is promised.  A handler
    never runs in that window; if [execute] were entered there, the
    newcomer would take the slot and the waiter, resuming, would make a
    second call run under a limit of one. *)
Remark slot_promised_to_woken_waiter :
  reachable "slow-service" 1 1 woken /\
  step (Call 11) woken = None /\
  snd (execute 11 woken) = Started 3 /\
  exists r, step (Wake 12) (fst (execute 11 woken)) = Some (r, DidResume 2) /\
            activeRequests (self r) = 2.
Proof.
  split; [exists [Call 0; Call 1; Settle 1 true 10]; eexists; vm_compute; reflexivity|].
  split; [reflexivity|]. split; [reflexivity|].
  eexists. split; [vm_compute; reflexivity | reflexivity].
Qed.

(** C2. A call is rejected exactly when, as it is made, every slot is
    taken and the queue is full, and then nothing moves but the two
    counters; with a free slot it takes the slot and goes on to [fn()]
    at once; with every slot taken and room in the queue it is queued
    behind the others.  The two bounds assumed are those of every
    state a bulkhead can reach ([inv_reachable]). *)
Theorem rejected_iff_full now r :
  activeRequests (self r) <= maxConcurrent (self r) ->
  Z.of_nat (length (queuedRequests (self r))) <= maxQueue (self r) ->
  let b := self r in
  let m := metrics b in
  let c := totalRequests m + 1 in
  let counted :=
    mkMetrics (totalRequests m + 1) (successfulRequests m) (failedRequests m)
              (rejectedRequests m) (averageResponseTime m) (responseTimes m) in
  (snd (execute now r) = Rejected <->
     activeRequests b = maxConcurrent b /\
     Z.of_nat (length (queuedRequests b)) = maxQueue b) /\
  (activeRequests b = maxConcurrent b ->
   Z.of_nat (length (queuedRequests b)) = maxQueue b ->
     execute now r
     = (mkRuntime
          (mk (name b) (maxConcurrent b) (maxQueue b) (activeRequests b)
              (queuedRequests b)
              (mkMetrics (totalRequests m + 1) (successfulRequests m)
                         (failedRequests m) (rejectedRequests m + 1)
                         (averageResponseTime m) (responseTimes m)))
          (jobs r) (awaiting r),
        Rejected)) /\
  (activeRequests b < maxConcurrent b ->
     execute now r
     = (mkRuntime
          (mk (name b) (maxConcurrent b) (maxQueue b) (activeRequests b + 1)
              (queuedRequests b) counted)
          (jobs r) (awaiting r ++ [(c, now)]),
        Started c)) /\
  (activeRequests b = maxConcurrent b ->
   Z.of_nat (length (queuedRequests b)) < maxQueue b ->
     execute now r
     = (mkRuntime
          (mk (name b) (maxConcurrent b) (maxQueue b) (activeRequests b)
              (queuedRequests b ++ [c]) counted)
          (jobs r) (awaiting r),
        Queued c)).
Proof.
  intros Ha Hl. cbv zeta. unfold execute, execute_run.
  cbn [set_metrics set_active set_queue count_total count_rejected
       maxConcurrent maxQueue activeRequests queuedRequests metrics name
       totalRequests successfulRequests failedRequests rejectedRequests
       averageResponseTime responseTimes self jobs awaiting].
  destruct (maxConcurrent (self r) <=? activeRequests (self r)) eqn:E1;
  destruct (maxQueue (self r) <=? Z.of_nat (length (queuedRequests (self r))))
    eqn:E2; cbn [andb snd];
  rewrite ?Z.leb_le, ?Z.leb_gt in *;
  (split; [split; [intros H; try discriminate H; lia
                  | intros [? ?]; try reflexivity; lia]|]);
  (split; [intros ? ?; try lia; reflexivity|]);
  (split; [intros ?; try lia; reflexivity|]);
  intros ? ?; try lia; reflexivity.
Qed.

Lemma rejected_iff_full_witness :
  reachable "slow-service" 2 1 saturated /\
  execute 5 saturated
  = (mkRuntime (mk "slow-service" 2 1 2 [3] (mkMetrics 4 0 0 1 0%Q []))
               [] [(1, 0); (2, 0)],
     Rejected) /\
  execute 7 (start (new "slow-service" 2 1))
  = (mkRuntime (mk "slow-service" 2 1 1 [] (mkMetrics 1 0 0 0 0%Q []))
               [] [(1, 7)],
     Started 1).
Proof.
  split; [exists [Call 0; Call 0; Call 0]; eexists; vm_compute; reflexivity|].
  split.
  - exact (proj1 (proj2 (rejected_iff_full 5 saturated
                           ltac:(cbn; lia) ltac:(cbn; lia)))
             eq_refl eq_refl).
  - exact (proj1 (proj2 (proj2 (rejected_iff_full 7
                                  (start (new "slow-service" 2 1))
                                  ltac:(cbn; lia) ltac:(cbn; lia))))
             eq_refl).
Defined.

(** C10. A rejected call leaves [activeRequests] and [queuedRequests]
    (and the limits, the woken waiters and the running calls) as they
    were; in the metrics [totalRequests] and [rejectedRequests] grow by
    one and nothing else changes. *)
Theorem rejection_only_counts now r :
  snd (execute now r) = Rejected ->
  let r' := fst (execute now r) in
  let m := metrics (self r) in
  let m' := metrics (self r') in
  activeRequests (self r') = activeRequests (self r) /\
  queuedRequests (self r') = queuedRequests (self r) /\
  maxConcurrent (self r') = maxConcurrent (self r) /\
  maxQueue (self r') = maxQueue (self r) /\
  name (self r') = name (self r) /\
  jobs r' = jobs r /\
  awaiting r' = awaiting r /\
  totalRequests m' = totalRequests m + 1 /\
  rejectedRequests m' = rejectedRequests m + 1 /\
  successfulRequests m' = successfulRequests m /\
  failedRequests m' = failedRequests m /\
  averageResponseTime m' = averageResponseTime m /\
  responseTimes m' = responseTimes m.
Proof.
  unfold execute. cbn [set_metrics maxConcurrent maxQueue activeRequests
    queuedRequests metrics].
  destruct (maxConcurrent (self r) <=? activeRequests (self r));
  destruct (maxQueue (self r) <=? Z.of_nat (length (queuedRequests (self r))));
  cbn [andb snd fst]; intros H; try discriminate H.
  cbn. repeat split.
Qed.

Lemma rejection_only_counts_witness :
  activeRequests (self (fst (execute 5 saturated))) = 2 /\
  queuedRequests (self (fst (execute 5 saturated))) = [3] /\
  totalRequests (metrics (self (fst (execute 5 saturated)))) = 4 /\
  rejectedRequests (metrics (self (fst (execute 5 saturated)))) = 1.
Proof.
  pose proof (rejection_only_counts 5 saturated eq_refl) as H.
  cbv zeta in H.
  destruct H as (Ha & Hq & _ & _ & _ & _ & _ & Ht & Hrj & _).
  exact (conj Ha (conj Hq (conj Ht Hrj))).
Defined.

(** ** Order of resumption *)

Lemma fifo_step e r r' a :
  step e r = Some (r', a) ->
  jobs r ++ queuedRequests (self r) ++ queued_of [a] =
  resumed_of [a] ++ jobs r' ++ queuedRequests (self r').
Proof.
  destruct e as [now|now|c ok now]; cbn [step].
  - destruct (jobs r) eqn:Hj; [|discriminate]. unfold execute.
    cbn [set_metrics maxConcurrent maxQueue activeRequests queuedRequests metrics].
    destruct (maxConcurrent (self r) <=? activeRequests (self r));
    [destruct (maxQueue (self r) <=? Z.of_nat (length (queuedRequests (self r))))|];
    cbn [andb]; intros [= <- <-]; cbn; rewrite ?Hj, ?app_nil_r; reflexivity.
  - destruct (jobs r) as [|w js] eqn:Hj; [discriminate|].
    intros [= <- <-]. cbn. now rewrite app_nil_r.
  - destruct (lookup c (awaiting r)) as [st|]; [|discriminate].
    intros [= <- <-]. unfold execute_settle, execute_finally.
    cbn [self set_metrics set_active queuedRequests jobs awaiting].
    destruct (queuedRequests (self r)) as [|w q] eqn:Eq; cbn;
      rewrite ?Eq, ?app_nil_r, <- ?app_assoc; reflexivity.
Qed.

Lemma queued_of_cons a log : queued_of (a :: log) = queued_of [a] ++ queued_of log.
Proof. unfold queued_of. cbn. now rewrite app_nil_r. Qed.

Lemma resumed_of_cons a log :
  resumed_of (a :: log) = resumed_of [a] ++ resumed_of log.
Proof. unfold resumed_of. cbn. now rewrite app_nil_r. Qed.

(** The waiters ever queued are, in order: those already admitted,
    those woken and about to run, those still in the queue. *)
Lemma fifo_run es : forall r r' log,
  run es r = Some (r', log) ->
  jobs r ++ queuedRequests (self r) ++ queued_of log =
  resumed_of log ++ jobs r' ++ queuedRequests (self r').
Proof.
  induction es as [|e es IH]; cbn [run]; intros r r' log.
  - intros [= <- <-]. cbn. now rewrite app_nil_r.
  - destruct (step e r) as [[r1 a]|] eqn:Hs; [|discriminate].
    destruct (run es r1) as [[r2 l2]|] eqn:Hr; [|discriminate].
    intros [= <- <-]. apply fifo_step in Hs. apply IH in Hr.
    rewrite queued_of_cons, resumed_of_cons.
    rewrite !app_assoc in *. rewrite Hs. rewrite <- !app_assoc in *.
    now rewrite Hr.
Qed.

Lemma total_step e r r' a :
  step e r = Some (r', a) ->
  totalRequests (metrics (self r)) <= totalRequests (metrics (self r')) /\
  forall c, In c (queued_of [a]) ->
            totalRequests (metrics (self r)) < c <= totalRequests (metrics (self r')).
Proof.
  destruct e as [now|now|c ok now]; cbn [step].
  - destruct (jobs r) eqn:Hj; [|discriminate]. unfold execute.
    cbn [set_metrics maxConcurrent maxQueue activeRequests queuedRequests metrics].
    destruct (maxConcurrent (self r) <=? activeRequests (self r));
    [destruct (maxQueue (self r) <=? Z.of_nat (length (queuedRequests (self r))))|];
    cbn [andb]; intros [= <- <-]; cbn; (split; [lia|]);
    intros c' Hc; try contradiction; destruct Hc as [<-|[]]; lia.
  - destruct (jobs r) as [|w js] eqn:Hj; [discriminate|].
    intros [= <- <-]. cbn. split; [lia | contradiction].
  - destruct (lookup c (awaiting r)) as [st|]; [|discriminate].
    intros [= <- <-]. unfold execute_settle, execute_finally.
    cbn [self set_metrics set_active queuedRequests jobs awaiting].
    destruct (queuedRequests (self r)) as [|w q], ok; cbn;
      (split; [lia | contradiction]).
Qed.

(** No two queued waiters bear the same ordinal. *)
Lemma queued_fresh es : forall r r' log,
  run es r = Some (r', log) ->
  totalRequests (metrics (self r)) <= totalRequests (metrics (self r')) /\
  (forall c, In c (queued_of log) -> totalRequests (metrics (self r)) < c) /\
  NoDup (queued_of log).
Proof.
  induction es as [|e es IH]; cbn [run]; intros r r' log.
  - intros [= <- <-]. cbn. repeat split; [lia | contradiction | constructor].
  - destruct (step e r) as [[r1 a]|] eqn:Hs; [|discriminate].
    destruct (run es r1) as [[r2 l2]|] eqn:Hr; [|discriminate].
    intros [= <- <-]. apply total_step in Hs. destruct Hs as [Hle Hin].
    apply IH in Hr. destruct Hr as (Hle' & Hin' & Hnd).
    rewrite queued_of_cons. repeat split.
    + lia.
    + intros c Hc. apply in_app_or in Hc. destruct Hc as [Hc|Hc].
      * apply Hin in Hc. lia.
      * apply Hin' in Hc. lia.
    + apply NoDup_app; [|exact Hnd|].
      * destruct a; cbn; repeat constructor; intros [].
      * intros c Hc Hc'. apply Hin in Hc. apply Hin' in Hc'. lia.
Qed.

Lemma before_prefix (w1 w2 : call) (q adm rest : list call) :
  NoDup q -> q = adm ++ rest -> before w1 w2 q -> In w2 adm ->
  before w1 w2 adm.
Proof.
  intros Hnd Hq (l1 & l2 & l3 & Hb) Hin.
  assert (Hsplit : (l1 ++ w1 :: l2 ++ [w2]) ++ l3 = adm ++ rest).
  { rewrite <- Hq, Hb. rewrite <- !app_assoc. cbn. now rewrite <- app_assoc. }
  apply app_eq_app in Hsplit. destruct Hsplit as [l [[Hp Hr]|[Hp Hr]]].
  - destruct l as [|x l] using rev_ind.
    + rewrite app_nil_r in Hp. exists l1, l2, []. now rewrite <- Hp.
    + exfalso. clear IHl.
      replace (l1 ++ w1 :: l2 ++ [w2]) with ((l1 ++ w1 :: l2) ++ [w2]) in Hp
        by (rewrite <- app_assoc; reflexivity).
      rewrite app_assoc in Hp. apply app_inj_tail in Hp. destruct Hp as [_ <-].
      apply in_split in Hin. destruct Hin as (a1 & a2 & ->).
      rewrite Hq, Hr in Hnd. rewrite <- app_assoc in Hnd. cbn in Hnd.
      apply NoDup_remove_2 in Hnd. apply Hnd.
      rewrite !in_app_iff. right. right. left. right. now left.
  - exists l1, l2, l. rewrite Hp. rewrite <- !app_assoc. cbn.
    now rewrite <- app_assoc.
Qed.

(** C3. Queued callers are admitted in the order they arrived: the
    callers resumed so far are the first of those ever queued, in the
    same order; so when [w1] was queued before [w2] and [w2] has been
    resumed, [w1] was resumed before it. *)
Theorem queued_callers_resume_in_order n mc mq es r log :
  run es (start (new n mc mq)) = Some (r, log) ->
  queued_of log = resumed_of log ++ jobs r ++ queuedRequests (self r) /\
  forall w1 w2, before w1 w2 (queued_of log) -> In w2 (resumed_of log) ->
                before w1 w2 (resumed_of log).
Proof.
  intros Hr. pose proof (fifo_run _ _ _ _ Hr) as Hf. cbn in Hf.
  split; [exact Hf|]. intros w1 w2 Hb Hin.
  destruct (queued_fresh _ _ _ _ Hr) as (_ & _ & Hnd).
  eapply before_prefix; eauto.
Qed.

Lemma queued_callers_resume_in_order_witness :
  exists r log,
    run three_in_a_row (start (new "slow-service" 1 2)) = Some (r, log) /\
    queued_of log = [2; 3] /\
    (queued_of log = resumed_of log ++ jobs r ++ queuedRequests (self r) /\
     forall w1 w2, before w1 w2 (queued_of log) -> In w2 (resumed_of log) ->
                   before w1 w2 (resumed_of log)).
Proof.
  eexists. eexists. split; [vm_compute; reflexivity|].
  split; [vm_compute; reflexivity|].
  apply (queued_callers_resume_in_order "slow-service" 1 2 three_in_a_row).
  vm_compute. reflexivity.
Defined.

(** ** Metrics *)

Lemma metrics_inv_step e r r' a :
  metrics_inv (metrics (self r)) -> step e r = Some (r', a) ->
  metrics_inv (metrics (self r')).
Proof.
  intros [He Hm Hc]. destruct e as [now|now|c ok now]; cbn [step].
  - destruct (jobs r) eqn:Hj; [|discriminate]. unfold execute.
    cbn [set_metrics maxConcurrent maxQueue activeRequests queuedRequests metrics].
    destruct (maxConcurrent (self r) <=? activeRequests (self r));
    [destruct (maxQueue (self r) <=? Z.of_nat (length (queuedRequests (self r))))|];
    cbn [andb]; intros [= <- _]; constructor; cbn; assumption.
  - destruct (jobs r) as [|w js] eqn:Hj; [discriminate|].
    intros [= <- _]. constructor; cbn; assumption.
  - destruct (lookup c (awaiting r)) as [st|]; [|discriminate].
    intros [= <- _]. unfold execute_settle, execute_finally.
    cbn [self set_metrics set_active queuedRequests jobs awaiting].
    destruct (queuedRequests (self r)) as [|w q], ok; constructor; cbn;
      try assumption; try reflexivity;
      try (intros H; now destruct (responseTimes (metrics (self r))));
      rewrite length_app; cbn [length]; lia.
Qed.

Lemma metrics_inv_run es : forall r r' log,
  metrics_inv (metrics (self r)) -> run es r = Some (r', log) ->
  metrics_inv (metrics (self r')).
Proof.
  induction es as [|e es IH]; cbn [run]; intros r r' log Hi.
  - now intros [= <- _].
  - destruct (step e r) as [[r1 a]|] eqn:Hs; [|discriminate].
    destruct (run es r1) as [[r2 l2]|] eqn:Hr; [|discriminate].
    intros [= <- _]. eapply IH; [|exact Hr]. eapply metrics_inv_step; eauto.
Qed.

Lemma metrics_inv_reachable n mc mq r :
  reachable n mc mq r -> metrics_inv (metrics (self r)).
Proof.
  intros (es & log & Hr). eapply metrics_inv_run; [|exact Hr].
  constructor; cbn; [reflexivity | intros H; now elim H | reflexivity].
Qed.

(** C9 as stated fails on a call whose [fn()] rejects:
    the call completes, [failedRequests] counts it, and no response
    time is recorded. *)
Lemma failed_call_leaves_no_sample :
  exists r,
    run one_failure (start (new "slow-service" 5 10))
      = Some (r, [DidStart 1; DidFinish 1 false]) /\
    failedRequests (metrics (self r)) = 1 /\
    responseTimes (metrics (self r)) = [] /\
    averageResponseTime (metrics (self r)) = 0%Q.
Proof. eexists. split; [vm_compute; reflexivity|]. repeat split. Qed.

(** C9, amended. A response time is recorded when a call completes
    successfully, and only then: the sample is the time since the call
    was admitted, [successfulRequests] grows by one and the average
    becomes the mean of all samples.  A call that fails adds one to
    [failedRequests] and leaves the samples and the average alone.
    Every call adds one to [totalRequests] as it enters, and one to
    [rejectedRequests] if it is rejected.  At all times there is one
    sample per successful call and the average is the mean of the
    samples (0 while there is none). *)
Theorem samples_on_success_only n mc mq r e r' a :
  reachable n mc mq r -> step e r = Some (r', a) ->
  let m := metrics (self r) in
  let m' := metrics (self r') in
  match e with
  | Settle c true now =>
      exists startTime, lookup c (awaiting r) = Some startTime /\
      responseTimes m' = responseTimes m ++ [now - startTime] /\
      successfulRequests m' = successfulRequests m + 1 /\
      failedRequests m' = failedRequests m /\
      totalRequests m' = totalRequests m /\
      rejectedRequests m' = rejectedRequests m
  | Settle c false now =>
      responseTimes m' = responseTimes m /\
      averageResponseTime m' = averageResponseTime m /\
      successfulRequests m' = successfulRequests m /\
      failedRequests m' = failedRequests m + 1 /\
      totalRequests m' = totalRequests m /\
      rejectedRequests m' = rejectedRequests m
  | Call now =>
      totalRequests m' = totalRequests m + 1 /\
      rejectedRequests m' =
        rejectedRequests m + (match a with DidReject _ => 1 | _ => 0 end) /\
      responseTimes m' = responseTimes m /\
      averageResponseTime m' = averageResponseTime m /\
      successfulRequests m' = successfulRequests m /\
      failedRequests m' = failedRequests m
  | Wake now => m' = m
  end /\
  (responseTimes m' = [] -> averageResponseTime m' = 0%Q) /\
  (responseTimes m' <> [] -> averageResponseTime m' = mean (responseTimes m')) /\
  Z.of_nat (length (responseTimes m')) = successfulRequests m'.
Proof.
  intros Hr Hs. cbv zeta.
  pose proof (metrics_inv_step e r r' a (metrics_inv_reachable _ _ _ _ Hr) Hs)
    as [He Hm Hc].
  split; [|now repeat split]. clear He Hm Hc Hr.
  destruct e as [now|now|c ok now]; cbn [step] in Hs.
  - destruct (jobs r) eqn:Hj; [|discriminate]. revert Hs. unfold execute.
    cbn [set_metrics maxConcurrent maxQueue activeRequests queuedRequests metrics].
    destruct (maxConcurrent (self r) <=? activeRequests (self r));
    [destruct (maxQueue (self r) <=? Z.of_nat (length (queuedRequests (self r))))|];
    cbn [andb]; intros [= <- <-]; cbn; repeat split; lia.
  - destruct (jobs r) as [|w js] eqn:Hj; [discriminate|].
    injection Hs as <- _. reflexivity.
  - destruct (lookup c (awaiting r)) as [st|] eqn:Hl; [|discriminate].
    injection Hs as <- _. unfold execute_settle, execute_finally.
    cbn [self set_metrics set_active queuedRequests jobs awaiting].
    destruct (queuedRequests (self r)) as [|w q], ok; cbn;
      try (exists st); repeat split.
Qed.

Lemma samples_on_success_only_witness :
  exists r',
    step (Settle 1 true 10) (fst (execute 0 (start (new "slow-service" 5 10))))
      = Some (r', DidFinish 1 true) /\
    responseTimes (metrics (self r')) = [10] /\
    averageResponseTime (metrics (self r')) = mean [10].
Proof.
  eexists. split; [vm_compute; reflexivity|].
  assert (Hreach : reachable "slow-service" 5 10
                     (fst (execute 0 (start (new "slow-service" 5 10))))).
  { exists [Call 0]. eexists. vm_compute. reflexivity. }
  pose proof (samples_on_success_only "slow-service" 5 10 _ (Settle 1 true 10)
                _ (DidFinish 1 true) Hreach eq_refl) as H.
  cbv zeta in H. destruct H as ((st & Hl & Hrt & _) & _ & Hm & _).
  injection Hl as <-. split; [exact Hrt|].
  exact (Hm ltac:(rewrite Hrt; discriminate)).
Defined.

End BulkheadFacts.

(** * Properties of the circuit breaker *)

Module CircuitBreakerFacts.
Import CircuitBreaker.

Lemma failures_app t1 t2 cb : failures (t1 ++ t2) cb = failures t2 (failures t1 cb).
Proof. unfold failures. apply fold_left_app. Qed.

(** One failure that does not reach the threshold only counts. *)
Lemma onFailure_below now cb :
  failureCount cb + 1 < failureThreshold cb ->
  state (onFailure now cb) = state cb /\
  failureCount (onFailure now cb) = failureCount cb + 1 /\
  failureThreshold (onFailure now cb) = failureThreshold cb /\
  timeout (onFailure now cb) = timeout cb /\
  nextAttempt (onFailure now cb) = nextAttempt cb.
Proof.
  intros H. unfold onFailure.
  cbn [set_metrics set_failureCount failureThreshold failureCount].
  destruct (failureThreshold cb <=? failureCount cb + 1) eqn:E.
  - apply Z.leb_le in E. lia.
  - cbn. repeat split.
Qed.

(** One failure that reaches the threshold opens the circuit. *)
Lemma onFailure_reaching now cb :
  failureThreshold cb <= failureCount cb + 1 ->
  state (onFailure now cb) = OPEN /\
  nextAttempt (onFailure now cb) = now + timeout cb /\
  failureCount (onFailure now cb) = failureCount cb + 1.
Proof.
  intros H. unfold onFailure.
  cbn [set_metrics set_failureCount failureThreshold failureCount].
  destruct (failureThreshold cb <=? failureCount cb + 1) eqn:E.
  - cbn. repeat split.
  - apply Z.leb_gt in E. lia.
Qed.

Lemma failures_below times : forall cb,
  failureCount cb + Z.of_nat (length times) < failureThreshold cb ->
  state (failures times cb) = state cb /\
  failureCount (failures times cb) = failureCount cb + Z.of_nat (length times) /\
  failureThreshold (failures times cb) = failureThreshold cb /\
  timeout (failures times cb) = timeout cb /\
  nextAttempt (failures times cb) = nextAttempt cb.
Proof.
  induction times as [|now times IH]; intros cb H.
  - cbn. repeat split. lia.
  - cbn [length] in H. rewrite Nat2Z.inj_succ in H.
    destruct (onFailure_below now cb ltac:(lia)) as (Hs & Hc & Ht & Hto & Hn).
    change (failures (now :: times) cb) with (failures times (onFailure now cb)).
    destruct (IH (onFailure now cb) ltac:(lia)) as (Hs' & Hc' & Ht' & Hto' & Hn').
    cbn [length]. rewrite Nat2Z.inj_succ.
    repeat split; try congruence; lia.
Qed.

(** A success in [CLOSED] clears the count and changes nothing else of
    the state machine. *)
Lemma onSuccess_closed now cb :
  state cb = CLOSED ->
  state (onSuccess now cb) = CLOSED /\ failureCount (onSuccess now cb) = 0.
Proof.
  intros Hs. unfold onSuccess. cbn [set_failureCount state]. rewrite Hs.
  cbn. split; [exact Hs | reflexivity].
Qed.

(** C4. From [CLOSED] with no failure counted: failures fewer than the
    threshold leave the circuit [CLOSED] and are counted one by one;
    the failure that makes their number reach the threshold moves the
    circuit to [OPEN] and sets [nextAttempt] to that moment plus the
    reset timeout; a success in [CLOSED], after those failures or in
    any other [CLOSED] state, puts the count back to 0 and leaves the
    circuit [CLOSED]. *)
Theorem closed_opens_at_threshold cb times now :
  state cb = CLOSED -> failureCount cb = 0 ->
  (Z.of_nat (length times) < failureThreshold cb ->
     state (failures times cb) = CLOSED /\
     failureCount (failures times cb) = Z.of_nat (length times) /\
     state (onSuccess now (failures times cb)) = CLOSED /\
     failureCount (onSuccess now (failures times cb)) = 0) /\
  (Z.of_nat (length times) + 1 = failureThreshold cb ->
     state (failures (times ++ [now]) cb) = OPEN /\
     nextAttempt (failures (times ++ [now]) cb) = now + timeout cb) /\
  (forall c, state c = CLOSED ->
     state (onSuccess now c) = CLOSED /\ failureCount (onSuccess now c) = 0).
Proof.
  intros Hs Hc. split; [|split]; [intros Hlen | intros Hlen |].
  - destruct (failures_below times cb ltac:(lia)) as (Hs' & Hc' & _).
    rewrite Hs in Hs'.
    destruct (onSuccess_closed now (failures times cb) Hs') as (Hs'' & Hc'').
    rewrite Hs', Hc', Hc, Hs'', Hc''. repeat split.
  - destruct (failures_below times cb ltac:(lia)) as (_ & Hc' & Ht' & Hto' & _).
    rewrite failures_app.
    change (failures [now] (failures times cb))
      with (onFailure now (failures times cb)).
    destruct (onFailure_reaching now (failures times cb) ltac:(lia))
      as (Ho & Hn & _).
    rewrite Ho, Hn, Hto'. split; reflexivity.
  - intros c Hcl. now apply onSuccess_closed.
Qed.

Lemma closed_opens_at_threshold_witness :
  (state (failures [10; 11] fresh_slow) = CLOSED /\
   failureCount (failures [10; 11] fresh_slow) = 2) /\
  (state (failures [10; 11; 12] fresh_slow) = OPEN /\
   nextAttempt (failures [10; 11; 12] fresh_slow) = 20012).
Proof.
  pose proof (closed_opens_at_threshold fresh_slow [10; 11] 12
                eq_refl eq_refl) as (Hb & Ha & _).
  specialize (Hb ltac:(cbn; lia)). specialize (Ha ltac:(cbn; lia)).
  destruct Hb as (H1 & H2 & _). destruct Ha as (H3 & H4).
  exact (conj (conj H1 H2) (conj H3 H4)).
Defined.

(** An open breaker turns away a call that comes before
    [nextAttempt]: only the two counters move. *)
Lemma enter_open_early cb now :
  state cb = OPEN -> now < nextAttempt cb ->
  snd (execute now cb) = Reject /\
  state (fst (execute now cb)) = OPEN /\
  nextAttempt (fst (execute now cb)) = nextAttempt cb /\
  failureCount (fst (execute now cb)) = failureCount cb /\
  totalFailures (metrics (fst (execute now cb))) = totalFailures (metrics cb).
Proof.
  intros Hs H. unfold execute. cbn [set_metrics state nextAttempt].
  rewrite Hs. cbn [State_eqb].
  destruct (now <? nextAttempt cb) eqn:E; [|apply Z.ltb_ge in E; lia].
  cbn. repeat split. exact Hs.
Qed.

(** C5. While the circuit is [OPEN], a call made before [nextAttempt]
    is rejected without [fn] being called and the circuit stays [OPEN];
    a call made at [nextAttempt] or later moves the circuit to
    [HALF_OPEN] and goes on to call [fn]. *)
Theorem open_rejects_until_next_attempt cb now :
  state cb = OPEN ->
  (now < nextAttempt cb ->
     snd (execute now cb) = Reject /\
     state (fst (execute now cb)) = OPEN /\
     nextAttempt (fst (execute now cb)) = nextAttempt cb /\
     failureCount (fst (execute now cb)) = failureCount cb) /\
  (nextAttempt cb <= now ->
     snd (execute now cb) = Invoke /\
     state (fst (execute now cb)) = HALF_OPEN).
Proof.
  intros Hs. unfold execute. cbn [set_metrics state nextAttempt].
  rewrite Hs. cbn [State_eqb].
  destruct (now <? nextAttempt cb) eqn:E;
    [apply Z.ltb_lt in E | apply Z.ltb_ge in E];
    (split; intros H; [try lia | try lia]); cbn; repeat split; assumption.
Qed.

Lemma open_rejects_until_next_attempt_witness :
  (snd (execute 19000 opened_slow) = Reject /\
   state (fst (execute 19000 opened_slow)) = OPEN) /\
  (snd (execute 20012 opened_slow) = Invoke /\
   state (fst (execute 20012 opened_slow)) = HALF_OPEN).
Proof.
  pose proof (open_rejects_until_next_attempt opened_slow) as H.
  destruct (H 19000 eq_refl) as [Hb _].
  destruct (H 20012 eq_refl) as [_ Ha].
  destruct (Hb ltac:(cbn; lia)) as (H1 & H2 & _).
  destruct (Ha ltac:(cbn; lia)) as (H3 & H4).
  exact (conj (conj H1 H2) (conj H3 H4)).
Defined.

(** The part of the recovery rule the code does keep: a success in
    [HALF_OPEN] closes the circuit and clears the count, and a failure
    in [HALF_OPEN] reopens it when the count is still at the threshold,
    as it is when no success was recorded while the circuit was open. *)
Lemma half_open_success_closes cb now :
  state cb = HALF_OPEN ->
  state (onSuccess now cb) = CLOSED /\ failureCount (onSuccess now cb) = 0.
Proof.
  intros Hs. unfold onSuccess. cbn [set_failureCount state]. rewrite Hs.
  cbn. split; reflexivity.
Qed.

Lemma half_open_failure_reopens cb now :
  state cb = HALF_OPEN -> failureThreshold cb <= failureCount cb + 1 ->
  state (onFailure now cb) = OPEN /\
  nextAttempt (onFailure now cb) = now + timeout cb.
Proof.
  intros _ H. destruct (onFailure_reaching now cb H) as (Ho & Hn & _).
  now split.
Qed.

(** C6 fails on the code.  [onFailure] reopens the circuit only when
    [failureCount] reaches the threshold, and [onSuccess] clears
    [failureCount] in every state: a call that was in flight when the
    circuit opened and succeeds afterwards leaves the circuit [OPEN]
    with a count of 0, and the trial that fails after the cool-down
    then leaves it [HALF_OPEN], with [nextAttempt] in the past. *)
Theorem failed_trial_leaves_half_open :
  exists g os,
    Gateway.run Gateway.late_success_then_failed_trial (Gateway.slow 0)
      = Some (g, os) /\
    state (Gateway.breaker g) = HALF_OPEN /\
    failureCount (Gateway.breaker g) = 1 /\
    nextAttempt (Gateway.breaker g) = 20012 /\
    stateChanges (metrics (Gateway.breaker g))
      = [(OPEN, 12); (HALF_OPEN, 20500)].
Proof. eexists. eexists. split; [vm_compute; reflexivity|]. repeat split. Qed.

(** The same on [onFailure] alone. *)
Lemma half_open_failure_below_threshold cb now :
  state cb = HALF_OPEN -> failureCount cb + 1 < failureThreshold cb ->
  state (onFailure now cb) = HALF_OPEN /\
  nextAttempt (onFailure now cb) = nextAttempt cb.
Proof.
  intros Hs H. destruct (onFailure_below now cb H) as (Hs' & _ & _ & _ & Hn).
  rewrite Hs', Hs, Hn. split; reflexivity.
Qed.

End CircuitBreakerFacts.

(** * Properties of the gateway *)

Module GatewayFacts.
Import Gateway.

(** C7. When the breaker rejects a request because the circuit is open,
    [fn] is not called and the bulkhead is left exactly as it was: the
    same [activeRequests], [queuedRequests] and metrics, and no call
    started. *)
Theorem open_breaker_spares_bulkhead g now :
  CircuitBreaker.state (breaker g) = CircuitBreaker.OPEN ->
  now < CircuitBreaker.nextAttempt (breaker g) ->
  snd (CircuitBreaker.execute now (breaker g)) = CircuitBreaker.Reject /\
  snd (handle now g) = Replied CircuitOpen /\
  bulkhead (fst (handle now g)) = bulkhead g.
Proof.
  intros Hs Hn.
  destruct (CircuitBreakerFacts.enter_open_early (breaker g) now Hs Hn)
    as (Hr & _). split; [exact Hr|].
  unfold handle. destruct (CircuitBreaker.execute now (breaker g)) as [cb gt].
  cbn [snd] in Hr. subst gt. cbn. split; reflexivity.
Qed.

Lemma open_breaker_spares_bulkhead_witness :
  snd (handle 19000 slow_opened) = Replied CircuitOpen /\
  bulkhead (fst (handle 19000 slow_opened)) = bulkhead slow_opened.
Proof.
  exact (proj2 (open_breaker_spares_bulkhead slow_opened 19000
                  eq_refl eq_refl)).
Defined.

(** ** The bulkhead inside the gateway *)

(** A turn of the gateway is at most one turn of its bulkhead. *)
Lemma step_bulkhead e g g' o :
  step e g = Some (g', o) ->
  bulkhead g' = bulkhead g \/
  exists e' a, Bulkhead.step e' (bulkhead g) = Some (bulkhead g', a).
Proof.
  destruct e as [now|now|c u now]; cbn [step].
  - destruct (Bulkhead.jobs (bulkhead g)) eqn:Hj; [|discriminate].
    unfold handle. destruct (CircuitBreaker.execute now (breaker g)) as [cb gt].
    destruct gt.
    + intros [= <- _]. now left.
    + destruct (Bulkhead.execute now (bulkhead g)) as [r a] eqn:He.
      assert (Hs : exists a', Bulkhead.step (Bulkhead.Call now) (bulkhead g)
                              = Some (r, a')).
      { cbn [Bulkhead.step]. rewrite Hj, He. eauto. }
      destruct Hs as [a' Hs].
      destruct a; intros [= <- _]; right; exists (Bulkhead.Call now), a';
        exact Hs.
  - destruct (Bulkhead.step (Bulkhead.Wake now) (bulkhead g))
      as [[r []]|] eqn:Hs; try discriminate.
    intros [= <- _]. right. eauto.
  - destruct (Bulkhead.step (Bulkhead.Settle c (fulfilled u) now) (bulkhead g))
      as [[r a]|] eqn:Hs; [|discriminate].
    intros [= <- _]. right. eauto.
Qed.

(** So the bulkhead of a running gateway is in a state the bulkhead
    alone can reach, and the facts above hold of it. *)
Lemma run_bulkhead es : forall g g' os,
  run es g = Some (g', os) ->
  exists es' log, Bulkhead.run es' (bulkhead g) = Some (bulkhead g', log).
Proof.
  induction es as [|e es IH]; cbn [run]; intros g g' os.
  - intros [= <- _]. exists [], []. reflexivity.
  - destruct (step e g) as [[g1 o]|] eqn:Hs; [|discriminate].
    destruct (run es g1) as [[g2 os2]|] eqn:Hr; [|discriminate].
    intros [= <- _]. destruct (IH _ _ _ Hr) as (es' & log & Hrun).
    destruct (step_bulkhead _ _ _ _ Hs) as [Heq|(e' & a & Hb)].
    + rewrite Heq in Hrun. eauto.
    + exists (e' :: es'), (a :: log). cbn [Bulkhead.run].
      now rewrite Hb, Hrun.
Qed.

Lemma slow_gateway_within_limits es now g os :
  run es (slow now) = Some (g, os) ->
  0 <= Bulkhead.activeRequests (Bulkhead.self (bulkhead g)) <= 5 /\
  Z.of_nat (length (Bulkhead.queuedRequests (Bulkhead.self (bulkhead g)))) <= 10.
Proof.
  intros Hr. apply run_bulkhead in Hr.
  destruct (BulkheadFacts.inv_reachable "slow-service" 5 10 (bulkhead g)
              ltac:(lia) ltac:(lia) Hr) as [_ _ Ha Hs Hq].
  lia.
Qed.

(** ** What the breaker counts as a failure *)

Lemma settle_failure_counts now cb :
  CircuitBreaker.failureCount (CircuitBreaker.execute_settle false now cb)
    = CircuitBreaker.failureCount cb + 1 /\
  CircuitBreaker.totalFailures
    (CircuitBreaker.metrics (CircuitBreaker.execute_settle false now cb))
    = CircuitBreaker.totalFailures (CircuitBreaker.metrics cb) + 1.
Proof.
  unfold CircuitBreaker.execute_settle, CircuitBreaker.onFailure.
  cbn [CircuitBreaker.set_metrics CircuitBreaker.set_failureCount
       CircuitBreaker.failureThreshold CircuitBreaker.failureCount].
  destruct (CircuitBreaker.failureThreshold cb
              <=? CircuitBreaker.failureCount cb + 1); cbn; split; reflexivity.
Qed.

Lemma settle_success_counts now cb :
  CircuitBreaker.failureCount (CircuitBreaker.execute_settle true now cb) = 0 /\
  CircuitBreaker.totalFailures
    (CircuitBreaker.metrics (CircuitBreaker.execute_settle true now cb))
    = CircuitBreaker.totalFailures (CircuitBreaker.metrics cb).
Proof.
  unfold CircuitBreaker.execute_settle, CircuitBreaker.onSuccess.
  cbn [CircuitBreaker.set_failureCount CircuitBreaker.state].
  destruct (CircuitBreaker.State_eqb (CircuitBreaker.state cb)
              CircuitBreaker.HALF_OPEN); cbn; split; reflexivity.
Qed.

Lemma enter_keeps_failures now cb :
  CircuitBreaker.failureCount (fst (CircuitBreaker.execute now cb))
    = CircuitBreaker.failureCount cb /\
  CircuitBreaker.totalFailures
    (CircuitBreaker.metrics (fst (CircuitBreaker.execute now cb)))
    = CircuitBreaker.totalFailures (CircuitBreaker.metrics cb).
Proof.
  unfold CircuitBreaker.execute.
  cbn [CircuitBreaker.set_metrics CircuitBreaker.state
       CircuitBreaker.nextAttempt].
  destruct (CircuitBreaker.State_eqb (CircuitBreaker.state cb)
              CircuitBreaker.OPEN);
  [destruct (now <? CircuitBreaker.nextAttempt cb)|]; cbn; split; reflexivity.
Qed.

(** C8 as stated fails: the sixteenth of sixteen
    simultaneous requests finds five calls running and ten queued, is
    rejected by the bulkhead, and the breaker counts it as a failure. *)
Lemma bulkhead_rejection_counted_as_failure :
  exists g os,
    run (burst 16) (slow 0) = Some (g, os) /\
    nth 15 os (Waiting 0) = Replied BulkheadRejected /\
    CircuitBreaker.failureCount (breaker g) = 1 /\
    CircuitBreaker.totalFailures (CircuitBreaker.metrics (breaker g)) = 1.
Proof. eexists. eexists. split; [vm_compute; reflexivity|]. repeat split. Qed.

(** Three such rejections open the circuit with no upstream failure at
    all. *)
Lemma three_rejections_open_the_circuit :
  CircuitBreaker.state (breaker (after (burst 18) (slow 0)))
    = CircuitBreaker.OPEN /\
  Bulkhead.failedRequests
    (Bulkhead.metrics (Bulkhead.self (bulkhead (after (burst 18) (slow 0))))) = 0.
Proof. vm_compute. split; reflexivity. Qed.

(** C8, amended. Every error that reaches the [catch] of the breaker is
    counted: a failure or a timeout of the HTTP call, and also the
    rejection of the request by the bulkhead, each add one to
    [failureCount] and to [totalFailures].  A request the breaker itself
    rejects, one that is queued or one that starts its call leaves both
    counters alone, and a fulfilled call clears [failureCount]. *)
Theorem breaker_counts_every_error e g g' o :
  step e g = Some (g', o) ->
  let fc := CircuitBreaker.failureCount (breaker g) in
  let fc' := CircuitBreaker.failureCount (breaker g') in
  let tf := CircuitBreaker.totalFailures (CircuitBreaker.metrics (breaker g)) in
  let tf' := CircuitBreaker.totalFailures (CircuitBreaker.metrics (breaker g')) in
  match e with
  | Request now =>
      match o with
      | Replied BulkheadRejected => fc' = fc + 1 /\ tf' = tf + 1
      | _ => fc' = fc /\ tf' = tf
      end
  | Wake now => breaker g' = breaker g
  | Respond c Fulfilled now => fc' = 0 /\ tf' = tf
  | Respond c _ now => fc' = fc + 1 /\ tf' = tf + 1
  end.
Proof.
  intros H. cbv zeta. revert H.
  destruct e as [now|now|c u now]; cbn [step].
  - destruct (Bulkhead.jobs (bulkhead g)); [|discriminate].
    unfold handle. pose proof (enter_keeps_failures now (breaker g)) as Hk.
    destruct (CircuitBreaker.execute now (breaker g)) as [cb gt].
    cbn [fst] in Hk. destruct gt.
    + intros [= <- <-]. exact Hk.
    + destruct (Bulkhead.execute now (bulkhead g)) as [r a].
      destruct a; intros [= <- <-]; cbn [breaker]; try exact Hk.
      destruct (settle_failure_counts now cb) as [H1 H2].
      change (CircuitBreaker.execute_settle false now cb)
        with (CircuitBreaker.onFailure now cb) in H1, H2.
      rewrite H1, H2. destruct Hk as [-> ->]. split; reflexivity.
  - destruct (Bulkhead.step (Bulkhead.Wake now) (bulkhead g)) as [[r []]|];
      try discriminate. intros [= <- _]. reflexivity.
  - destruct (Bulkhead.step (Bulkhead.Settle c (fulfilled u) now) (bulkhead g))
      as [[r a]|]; [|discriminate].
    intros [= <- _]. cbn [breaker]. destruct u; cbn [fulfilled].
    + apply settle_success_counts.
    + apply settle_failure_counts.
    + apply settle_failure_counts.
Qed.

Lemma breaker_counts_every_error_witness :
  exists g',
    step (Request 0) (fst (handle 0 (tiny 0)))
      = Some (g', Replied BulkheadRejected) /\
    CircuitBreaker.failureCount (breaker g')
      = CircuitBreaker.failureCount (breaker (fst (handle 0 (tiny 0)))) + 1.
Proof.
  eexists. split; [vm_compute; reflexivity|].
  exact (proj1 (breaker_counts_every_error (Request 0)
                  (fst (handle 0 (tiny 0))) _ (Replied BulkheadRejected)
                  eq_refl)).
Defined.

End GatewayFacts.

(** * More about the bulkhead *)

Module BulkheadMore.
Import Bulkhead.

Lemma books_step mc mq e r r' a :
  inv mc mq r -> books r -> step e r = Some (r', a) -> books r'.
Proof.
  intros [Hmc Hmq Ha Hs Hq] [Ht Hb].
  destruct e as [now|now|c ok now]; cbn [step].
  - destruct (jobs r) eqn:Hj; [|discriminate]. unfold execute.
    cbn [set_metrics maxConcurrent maxQueue activeRequests queuedRequests metrics].
    cbn [length] in *.
    destruct (maxConcurrent (self r) <=? activeRequests (self r)) eqn:E1;
    [destruct (maxQueue (self r) <=? Z.of_nat (length (queuedRequests (self r))))
       eqn:E2|];
    cbn [andb]; intros [= <- _];
    rewrite ?Z.leb_le, ?Z.leb_gt in *;
    constructor; cbn; rewrite ?Hj, ?length_app; cbn [length];
    try lia; intros Hne; try (specialize (Hb Hne)); try lia.
  - destruct (jobs r) as [|w js] eqn:Hj; [discriminate|].
    intros [= <- _]. cbn [length] in *.
    constructor; cbn; [lia|]. intros Hne. specialize (Hb Hne). lia.
  - destruct (lookup c (awaiting r)) as [st|] eqn:Hl; [|discriminate].
    intros [= <- _]. unfold execute_settle, execute_finally.
    cbn [self set_metrics set_active queuedRequests jobs awaiting].
    destruct (queuedRequests (self r)) as [|w q] eqn:Eq; destruct ok;
      constructor; cbn; rewrite ?Eq, ?length_app; cbn [length] in *;
      try lia; intros Hne; try contradiction;
      specialize (Hb ltac:(discriminate)); lia.
Qed.

Lemma books_run mc mq es : forall r r' log,
  inv mc mq r -> books r -> run es r = Some (r', log) -> books r'.
Proof.
  induction es as [|e es IH]; cbn [run]; intros r r' log Hi Hb.
  - now intros [= <- _].
  - destruct (step e r) as [[r1 a]|] eqn:Hs; [|discriminate].
    destruct (run es r1) as [[r2 l2]|] eqn:Hr; [|discriminate].
    intros [= <- _]. eapply IH; [| |exact Hr].
    + eapply BulkheadFacts.inv_step; eauto.
    + eapply books_step; eauto.
Qed.

Lemma books_reachable n mc mq r :
  0 <= mc -> 0 <= mq -> reachable n mc mq r -> books r.
Proof.
  intros Hc Hq (es & log & Hr).
  apply (books_run mc mq es (start (new n mc mq)) r log);
    [now apply BulkheadFacts.inv_start | | exact Hr].
  constructor; cbn; [reflexivity | intros H; now elim H].
Qed.

(** X1. In every state a bulkhead can reach, [totalRequests] is the
    sum of the calls rejected, succeeded, failed, running, woken and
    queued: no call is counted twice or lost. *)
Theorem every_call_accounted n mc mq r :
  0 <= mc -> 0 <= mq -> reachable n mc mq r ->
  totalRequests (metrics (self r))
  = rejectedRequests (metrics (self r))
    + successfulRequests (metrics (self r))
    + failedRequests (metrics (self r))
    + activeRequests (self r)
    + Z.of_nat (length (jobs r))
    + Z.of_nat (length (queuedRequests (self r))).
Proof. intros Hc Hq Hr. now destruct (books_reachable n mc mq r Hc Hq Hr). Qed.

Lemma every_call_accounted_witness :
  exists r, reachable "slow-service" 2 1 r /\
    totalRequests (metrics (self r)) = 4 /\
    totalRequests (metrics (self r))
    = rejectedRequests (metrics (self r))
      + successfulRequests (metrics (self r))
      + failedRequests (metrics (self r))
      + activeRequests (self r)
      + Z.of_nat (length (jobs r))
      + Z.of_nat (length (queuedRequests (self r))).
Proof.
  eexists. split; [exists scenarioA; eexists; vm_compute; reflexivity|].
  split; [reflexivity|].
  apply (every_call_accounted "slow-service" 2 1); [lia | lia |].
  exists scenarioA. eexists. vm_compute. reflexivity.
Defined.

(** X2. A caller waits in the queue only while every slot is taken or
    promised to a woken waiter. *)
Theorem nobody_waits_beside_a_free_slot n mc mq r :
  0 <= mc -> 0 <= mq -> reachable n mc mq r ->
  queuedRequests (self r) <> [] ->
  activeRequests (self r) + Z.of_nat (length (jobs r)) = maxConcurrent (self r).
Proof. intros Hc Hq Hr. now destruct (books_reachable n mc mq r Hc Hq Hr). Qed.

Lemma nobody_waits_beside_a_free_slot_witness :
  exists r, reachable "slow-service" 1 2 r /\
    queuedRequests (self r) = [3] /\ jobs r = [2] /\
    activeRequests (self r) + Z.of_nat (length (jobs r)) = maxConcurrent (self r).
Proof.
  eexists. split; [exists [Call 0; Call 1; Call 2; Settle 1 false 9]; eexists;
                   vm_compute; reflexivity|].
  split; [reflexivity|]. split; [reflexivity|].
  apply (nobody_waits_beside_a_free_slot "slow-service" 1 2); [lia | lia | |].
  - exists [Call 0; Call 1; Call 2; Settle 1 false 9]. eexists.
    vm_compute. reflexivity.
  - discriminate.
Defined.

Lemma begun_of_cons a log : begun_of (a :: log) = begun_of [a] ++ begun_of log.
Proof. unfold begun_of. cbn. now rewrite app_nil_r. Qed.

Lemma finished_of_cons a log :
  finished_of (a :: log) = finished_of [a] ++ finished_of log.
Proof. unfold finished_of. cbn. now rewrite app_nil_r. Qed.

Lemma slots_step e r r' a :
  step e r = Some (r', a) ->
  activeRequests (self r')
  = activeRequests (self r) + Z.of_nat (length (begun_of [a]))
    - Z.of_nat (length (finished_of [a])).
Proof.
  destruct e as [now|now|c ok now]; cbn [step].
  - destruct (jobs r) eqn:Hj; [|discriminate]. unfold execute.
    cbn [set_metrics maxConcurrent maxQueue activeRequests queuedRequests metrics].
    destruct (maxConcurrent (self r) <=? activeRequests (self r));
    [destruct (maxQueue (self r) <=? Z.of_nat (length (queuedRequests (self r))))|];
    cbn [andb]; intros [= <- <-]; cbn; lia.
  - destruct (jobs r) as [|w js]; [discriminate|].
    intros [= <- <-]. cbn. lia.
  - destruct (lookup c (awaiting r)) as [st|]; [|discriminate].
    intros [= <- <-]. unfold execute_settle, execute_finally.
    cbn [self set_metrics set_active queuedRequests jobs awaiting].
    destruct (queuedRequests (self r)); cbn; lia.
Qed.

(** Over any run, [activeRequests] has grown by the number of calls
    that went past [this.activeRequests++] and shrunk by the number of
    calls whose [finally] block ran. *)
Lemma slots_run es : forall r r' log,
  run es r = Some (r', log) ->
  activeRequests (self r')
  = activeRequests (self r) + Z.of_nat (length (begun_of log))
    - Z.of_nat (length (finished_of log)).
Proof.
  induction es as [|e es IH]; cbn [run]; intros r r' log.
  - intros [= <- <-]. cbn. lia.
  - destruct (step e r) as [[r1 a]|] eqn:Hs; [|discriminate].
    destruct (run es r1) as [[r2 l2]|] eqn:Hr; [|discriminate].
    intros [= <- <-]. apply slots_step in Hs. apply IH in Hr.
    rewrite begun_of_cons, finished_of_cons, !length_app. lia.
Qed.

Lemma lookup_split c l st :
  lookup c l = Some st ->
  exists l1 l2, l = l1 ++ (c, st) :: l2 /\ remove_call c l = l1 ++ l2.
Proof.
  induction l as [|[c' st'] l IH]; cbn [lookup remove_call]; [discriminate|].
  destruct (Z.eqb c c') eqn:E.
  - intros [= ->]. apply Z.eqb_eq in E. subst c'. exists [], l. now split.
  - intros H. destruct (IH H) as (l1 & l2 & -> & ->).
    exists ((c', st') :: l1), l2. now split.
Qed.

Lemma nodup_fresh (c : call) (t : Z) (l : list call) :
  NoDup l -> (forall x, In x l -> x <= t) -> t < c -> NoDup (c :: l).
Proof.
  intros Hn Hb Hc. constructor; [|exact Hn].
  intros Hin. apply Hb in Hin. lia.
Qed.

Lemma ledger_step e r r' a began done :
  ledger r began done -> step e r = Some (r', a) ->
  ledger r' (began ++ begun_of [a]) (done ++ finished_of [a]).
Proof.
  intros [Hn Hb Hp]. destruct e as [now|now|c ok now]; cbn [step].
  - destruct (jobs r) eqn:Hj; [|discriminate]. unfold execute.
    cbn [set_metrics maxConcurrent maxQueue activeRequests queuedRequests metrics].
    cbn [app] in Hn, Hb.
    destruct (maxConcurrent (self r) <=? activeRequests (self r));
    [destruct (maxQueue (self r) <=? Z.of_nat (length (queuedRequests (self r))))|];
    cbn [andb]; intros [= <- <-]; constructor;
    cbn [begun_of finished_of flat_map app self jobs awaiting execute_run
         set_metrics set_active set_queue queuedRequests metrics count_total
         count_rejected totalRequests];
    rewrite ?Hj, ?app_nil_r; cbn [app].
    + exact Hn.
    + intros x Hx. apply Hb in Hx. lia.
    + exact Hp.
    + rewrite app_assoc. eapply Permutation_NoDup;
        [apply Permutation_cons_append|].
      apply (nodup_fresh _ (totalRequests (metrics (self r)))); [exact Hn| |lia].
      exact Hb.
    + intros x Hx. rewrite app_assoc in Hx. apply in_app_or in Hx.
      destruct Hx as [Hx|[<-|[]]]; [apply Hb in Hx|]; lia.
    + exact Hp.
    + eapply Permutation_NoDup;
        [apply Permutation_app_tail, Permutation_cons_append|].
      cbn [app].
      apply (nodup_fresh _ (totalRequests (metrics (self r)))); [exact Hn| |lia].
      exact Hb.
    + intros x Hx. apply in_app_or in Hx. destruct Hx as [Hx|Hx].
      * apply in_app_or in Hx. destruct Hx as [Hx|[<-|[]]]; [|lia].
        specialize (Hb x (in_or_app _ _ _ (or_introl Hx))). lia.
      * specialize (Hb x (in_or_app _ _ _ (or_intror Hx))). lia.
    + rewrite map_app. cbn [map fst]. rewrite <- app_assoc.
      eapply perm_trans; [apply Permutation_app_head, Permutation_app_comm|].
      rewrite app_assoc. now apply Permutation_app_tail.
  - destruct (jobs r) as [|w js] eqn:Hj; [discriminate|].
    intros [= <- <-]. constructor;
    cbn [begun_of finished_of flat_map app self jobs awaiting execute_run
         set_active queuedRequests metrics]; rewrite ?app_nil_r.
    + rewrite <- app_assoc. exact Hn.
    + intros x Hx. rewrite <- app_assoc in Hx. now apply Hb.
    + rewrite map_app. cbn [map fst]. rewrite <- app_assoc.
      eapply perm_trans; [apply Permutation_app_head, Permutation_app_comm|].
      rewrite app_assoc. now apply Permutation_app_tail.
  - destruct (lookup c (awaiting r)) as [st|] eqn:Hl; [|discriminate].
    intros [= <- <-]. destruct (lookup_split _ _ _ Hl) as (l1 & l2 & Ha & Hr).
    unfold execute_settle, execute_finally.
    cbn [self set_metrics set_active queuedRequests jobs awaiting].
    assert (Hp' : Permutation
                    (map fst (remove_call c (awaiting r)) ++ done ++ [c]) began).
    { rewrite Hr. rewrite Ha in Hp. rewrite map_app in Hp |- *.
      cbn [map fst] in Hp. eapply perm_trans; [|exact Hp].
      rewrite app_assoc. eapply perm_trans;
        [symmetry; apply Permutation_cons_append|].
      rewrite <- !app_assoc. cbn [app]. apply Permutation_middle. }
    destruct (queuedRequests (self r)) as [|w q] eqn:Eq; constructor;
    cbn [begun_of finished_of flat_map app self jobs awaiting set_queue
         set_metrics set_active queuedRequests metrics];
    rewrite ?app_nil_r; try exact Hp'.
    + rewrite Eq. exact Hn.
    + intros x Hx. rewrite Eq in Hx. apply Hb in Hx.
      destruct ok; cbn; exact Hx.
    + rewrite <- app_assoc. exact Hn.
    + intros x Hx. rewrite <- app_assoc in Hx. apply Hb in Hx.
      destruct ok; cbn; exact Hx.
Qed.

Lemma ledger_run es : forall r r' log began done,
  ledger r began done -> run es r = Some (r', log) ->
  ledger r' (began ++ begun_of log) (done ++ finished_of log).
Proof.
  induction es as [|e es IH]; cbn [run]; intros r r' log began done Hl.
  - intros [= <- <-]. cbn. now rewrite !app_nil_r.
  - destruct (step e r) as [[r1 a]|] eqn:Hs; [|discriminate].
    destruct (run es r1) as [[r2 l2]|] eqn:Hr; [|discriminate].
    intros [= <- <-]. rewrite begun_of_cons, finished_of_cons, !app_assoc.
    eapply IH; [|exact Hr]. eapply ledger_step; eauto.
Qed.

(** X3. Each call that runs takes one slot and gives it back exactly
    once, whether [fn] succeeds or fails: in any run of a bulkhead no
    call goes past [this.activeRequests++] twice, no call's [finally]
    block runs twice, a [finally] block runs only for a call that went
    past [this.activeRequests++], the calls suspended at [await fn()]
    are those that did and whose [finally] has not run yet, and
    [activeRequests] is their number. *)
Theorem slots_taken_and_given_back n mc mq es r log :
  run es (start (new n mc mq)) = Some (r, log) ->
  NoDup (begun_of log) /\
  NoDup (finished_of log) /\
  incl (finished_of log) (begun_of log) /\
  Permutation (map fst (awaiting r) ++ finished_of log) (begun_of log) /\
  activeRequests (self r)
  = Z.of_nat (length (begun_of log)) - Z.of_nat (length (finished_of log)).
Proof.
  intros Hr.
  destruct (ledger_run es (start (new n mc mq)) r log [] []) as [Hn _ Hp];
    [constructor; cbn; [constructor | contradiction | constructor]
    | exact Hr |].
  cbn [app] in Hn, Hp. apply NoDup_app_remove_r in Hn.
  assert (Hnf : NoDup (map fst (awaiting r) ++ finished_of log))
    by (eapply Permutation_NoDup; [symmetry; exact Hp | exact Hn]).
  split; [exact Hn|]. split; [now apply NoDup_app_remove_l in Hnf|].
  split.
  - intros c Hc. eapply Permutation_in; [exact Hp|].
    apply in_or_app. now right.
  - split; [exact Hp|]. pose proof (slots_run _ _ _ _ Hr) as Hs.
    cbn in Hs. lia.
Qed.

Lemma slots_taken_and_given_back_witness :
  exists r log,
    run three_in_a_row (start (new "slow-service" 1 2)) = Some (r, log) /\
    begun_of log = [1; 2; 3] /\ finished_of log = [1; 2] /\
    awaiting r = [(3, 20)] /\
    (NoDup (begun_of log) /\
     NoDup (finished_of log) /\
     incl (finished_of log) (begun_of log) /\
     Permutation (map fst (awaiting r) ++ finished_of log) (begun_of log) /\
     activeRequests (self r)
     = Z.of_nat (length (begun_of log)) - Z.of_nat (length (finished_of log))).
Proof.
  eexists. eexists. split; [vm_compute; reflexivity|].
  split; [reflexivity|]. split; [reflexivity|]. split; [reflexivity|].
  apply (slots_taken_and_given_back "slow-service" 1 2 three_in_a_row).
  vm_compute. reflexivity.
Defined.

(** ** Nobody is left in the queue *)

Lemma drain_runs mc mq ok now fuel : forall r,
  1 <= mc -> inv mc mq r -> books r -> (work_left r <= fuel)%nat ->
  exists r' log,
    run (drain fuel ok now r) r = Some (r', log) /\
    idle r' /\ queued_of log = [].
Proof.
  induction fuel as [|fuel IH]; intros r Hmc Hi Hb Hw.
  - exists r, []. split; [reflexivity|]. split; [|reflexivity].
    unfold work_left in Hw. destruct Hi as [_ _ Ha _ _].
    destruct (queuedRequests (self r)) eqn:Eq; destruct (jobs r) eqn:Ej;
      destruct (awaiting r) eqn:Eaw; cbn in Hw; try lia.
    cbn in Ha. unfold idle. repeat split; assumption.
  - cbn [drain]. unfold next_turn.
    destruct (jobs r) as [|w js] eqn:Hj.
    + destruct (awaiting r) as [|[c st] aw] eqn:Haw.
      * exists r, []. split; [reflexivity|]. split; [|reflexivity].
        pose proof (inv_active _ _ _ Hi) as Ha. rewrite Haw in Ha. cbn in Ha.
        repeat split; try assumption.
        destruct (queuedRequests (self r)) eqn:Eq; [reflexivity|].
        pose proof (bk_busy _ Hb) as Hbusy. rewrite Eq, Hj in Hbusy.
        specialize (Hbusy ltac:(discriminate)). cbn in Hbusy.
        rewrite (inv_mc _ _ _ Hi) in Hbusy. lia.
      * assert (Hs : step (Settle c (ok c) now) r
                     = Some (execute_settle c st (ok c) now r,
                             DidFinish c (ok c))).
        { cbn [step]. rewrite Haw. cbn [lookup]. now rewrite Z.eqb_refl. }
        rewrite Hs.
        destruct (IH (execute_settle c st (ok c) now r) Hmc
                     (BulkheadFacts.inv_step _ _ _ _ _ _ Hi Hs)
                     (books_step _ _ _ _ _ _ Hi Hb Hs))
          as (r' & log & Hr & Hidle & Hq).
        { unfold work_left in Hw |- *. unfold execute_settle, execute_finally.
          cbn [self set_metrics set_active queuedRequests jobs awaiting].
          rewrite Haw, Hj in Hw |- *. cbn [remove_call]. rewrite Z.eqb_refl.
          destruct (queuedRequests (self r)) eqn:Eq;
            cbn [self jobs awaiting queuedRequests set_queue set_active
                 set_metrics];
            rewrite ?Eq, ?length_app; cbn [length] in Hw |- *; lia. }
        exists r', (DidFinish c (ok c) :: log). cbn [run].
        rewrite Hs, Hr. repeat split; try apply Hidle.
        rewrite BulkheadFacts.queued_of_cons, Hq. reflexivity.
    + assert (Hs : step (Wake now) r
                   = Some (execute_run w now (mkRuntime (self r) js (awaiting r)),
                           DidResume w)).
      { cbn [step]. now rewrite Hj. }
      rewrite Hs.
      destruct (IH _ Hmc (BulkheadFacts.inv_step _ _ _ _ _ _ Hi Hs)
                   (books_step _ _ _ _ _ _ Hi Hb Hs))
        as (r' & log & Hr & Hidle & Hq).
      { unfold work_left in Hw |- *. rewrite Hj in Hw. cbn [length] in Hw.
        cbn [execute_run self jobs awaiting set_active queuedRequests].
        rewrite length_app. cbn [length]. lia. }
      exists r', (DidResume w :: log). cbn [run].
      rewrite Hs, Hr. repeat split; try apply Hidle.
      rewrite BulkheadFacts.queued_of_cons, Hq. reflexivity.
Qed.

(** X4. With at least one slot, no caller is left waiting: from any
    state a bulkhead can reach, once nothing more arrives, letting the
    woken waiters run on and the running calls settle (well or badly)
    empties the bulkhead, and the callers that were woken or queued are
    resumed, all of them, oldest first. *)
Theorem no_caller_left_waiting n mc mq r ok now :
  1 <= mc -> 0 <= mq -> reachable n mc mq r ->
  exists r' log,
    run (drain (work_left r) ok now r) r = Some (r', log) /\
    idle r' /\
    resumed_of log = jobs r ++ queuedRequests (self r).
Proof.
  intros Hmc Hmq Hr.
  destruct (drain_runs mc mq ok now (work_left r) r Hmc
              (BulkheadFacts.inv_reachable n mc mq r ltac:(lia) Hmq Hr)
              (books_reachable n mc mq r ltac:(lia) Hmq Hr) (le_n _))
    as (r' & log & Hrun & Hidle & Hq).
  exists r', log. split; [exact Hrun|]. split; [exact Hidle|].
  pose proof (BulkheadFacts.fifo_run _ _ _ _ Hrun) as Hf.
  destruct Hidle as (_ & Hq' & Hj' & _).
  rewrite Hq, Hq', Hj', !app_nil_r in Hf. now symmetry.
Qed.

Lemma no_caller_left_waiting_witness :
  exists r, reachable "slow-service" 2 1 r /\
    jobs r ++ queuedRequests (self r) = [3] /\
    exists r' log,
      run (drain (work_left r) (fun _ => false) 50 r) r = Some (r', log) /\
      idle r' /\
      resumed_of log = jobs r ++ queuedRequests (self r).
Proof.
  eexists. split; [exists scenarioA; eexists; vm_compute; reflexivity|].
  split; [reflexivity|].
  apply (no_caller_left_waiting "slow-service" 2 1); [lia | lia |].
  exists scenarioA. eexists. vm_compute. reflexivity.
Defined.

(** Why X4 asks for a slot: with [maxConcurrent = 0] the first caller
    is queued and no turn of the event loop can ever resume it. *)
Remark no_slot_no_resumption :
  exists r, run [Call 0] (start (new "slow-service" 0 1))
            = Some (r, [DidQueue 1]) /\
            (forall e, (forall now, e <> Call now) -> step e r = None).
Proof.
  eexists. split; [vm_compute; reflexivity|].
  intros [now|now|c ok now] H; [now elim (H now) | reflexivity | reflexivity].
Qed.

(** ** The snapshot of [getStatus] *)

(** X5. The snapshot [getStatus()] hands to the metrics and health
    endpoints, taken from a request handler (no woken waiter pending),
    is consistent: the active calls and the queue length are within the
    limits it shows, the counters add up to [totalRequests], and a
    non-empty queue goes with all slots taken. *)
Theorem status_is_consistent n mc mq r :
  0 <= mc -> 0 <= mq -> reachable n mc mq r -> jobs r = [] ->
  let s := getStatus (self r) in
  let m := st_metrics s in
  0 <= st_activeRequests s <= st_maxConcurrent s /\
  0 <= st_queuedRequests s <= st_maxQueue s /\
  totalRequests m
  = rejectedRequests m + successfulRequests m + failedRequests m
    + st_activeRequests s + st_queuedRequests s /\
  (0 < st_queuedRequests s -> st_activeRequests s = st_maxConcurrent s).
Proof.
  intros Hc Hq Hr Hj. cbv zeta. cbn [getStatus st_activeRequests
    st_maxConcurrent st_queuedRequests st_maxQueue st_metrics].
  destruct (BulkheadFacts.inv_reachable n mc mq r Hc Hq Hr)
    as [Hmc Hmq Ha Hs Hl].
  destruct (books_reachable n mc mq r Hc Hq Hr) as [Ht Hb].
  rewrite Hj in *. cbn [length] in *. rewrite Hmc, Hmq.
  repeat split; try lia.
  intros Hpos. rewrite Hmc in Hb.
  destruct (queuedRequests (self r)); [cbn in Hpos; lia|].
  specialize (Hb ltac:(discriminate)). lia.
Qed.

Lemma status_is_consistent_witness :
  exists r, reachable "slow-service" 2 1 r /\
    st_queuedRequests (getStatus (self r)) = 1 /\
    st_activeRequests (getStatus (self r))
    = st_maxConcurrent (getStatus (self r)).
Proof.
  eexists. split; [exists scenarioA; eexists; vm_compute; reflexivity|].
  split; [reflexivity|].
  apply (status_is_consistent "slow-service" 2 1); [lia | lia | | |].
  - exists scenarioA. eexists. vm_compute. reflexivity.
  - reflexivity.
  - reflexivity.
Defined.

(** ** Response times *)

Lemma lookup_bound (t : Z) c l st :
  Forall (fun x : call * Z => snd x <= t) l -> lookup c l = Some st -> st <= t.
Proof.
  induction l as [|[c' st'] l IH]; cbn [lookup]; [discriminate|].
  intros Hf. inversion Hf as [|x l' Hx Hl]; subst.
  destruct (Z.eqb c c'); [intros [= <-]; exact Hx | now apply IH].
Qed.

Lemma remove_call_bound (t : Z) c l :
  Forall (fun x : call * Z => snd x <= t) l ->
  Forall (fun x : call * Z => snd x <= t) (remove_call c l).
Proof.
  induction l as [|[c' st'] l IH]; cbn [remove_call]; [auto|].
  intros Hf. inversion Hf as [|x l' Hx Hl]; subst.
  destruct (Z.eqb c c'); [exact Hl | constructor; auto].
Qed.

Lemma bound_later (t t' : Z) l :
  t <= t' ->
  Forall (fun x : call * Z => snd x <= t) l ->
  Forall (fun x : call * Z => snd x <= t') l.
Proof.
  intros Ht Hf. eapply Forall_impl; [|exact Hf]. cbn. intros x Hx. lia.
Qed.

Lemma durations_step t e r r' a :
  Forall (fun x : call * Z => snd x <= t) (awaiting r) ->
  Forall (fun d => 0 <= d) (responseTimes (metrics (self r))) ->
  t <= time_of e -> step e r = Some (r', a) ->
  Forall (fun x : call * Z => snd x <= time_of e) (awaiting r') /\
  Forall (fun d => 0 <= d) (responseTimes (metrics (self r'))).
Proof.
  intros Hs Hd Ht. pose proof (bound_later _ _ _ Ht Hs) as Hs'.
  destruct e as [now|now|c ok now]; cbn [step time_of] in *.
  - destruct (jobs r); [|discriminate]. unfold execute.
    cbn [set_metrics maxConcurrent maxQueue activeRequests queuedRequests metrics].
    destruct (maxConcurrent (self r) <=? activeRequests (self r));
    [destruct (maxQueue (self r) <=? Z.of_nat (length (queuedRequests (self r))))|];
    cbn [andb]; intros [= <- _]; cbn; (split; [|exact Hd]); try exact Hs'.
    apply Forall_app. split; [exact Hs'|]. repeat constructor. cbn. lia.
  - destruct (jobs r) as [|w js]; [discriminate|].
    intros [= <- _]. cbn. split; [|exact Hd].
    apply Forall_app. split; [exact Hs'|]. repeat constructor. cbn. lia.
  - destruct (lookup c (awaiting r)) as [st|] eqn:Hl; [|discriminate].
    intros [= <- _]. pose proof (lookup_bound _ _ _ _ Hs Hl) as Hst.
    unfold execute_settle, execute_finally.
    cbn [self set_metrics set_active queuedRequests jobs awaiting].
    destruct (queuedRequests (self r)), ok; cbn;
      (split; [now apply remove_call_bound|]); try exact Hd;
      apply Forall_app; (split; [exact Hd|]); repeat constructor; lia.
Qed.

Lemma durations_run es : forall t r r' log,
  Forall (fun x : call * Z => snd x <= t) (awaiting r) ->
  Forall (fun d => 0 <= d) (responseTimes (metrics (self r))) ->
  clock_runs_forward t es = true -> run es r = Some (r', log) ->
  Forall (fun d => 0 <= d) (responseTimes (metrics (self r'))).
Proof.
  induction es as [|e es IH]; cbn [run clock_runs_forward]; intros t r r' log Hs Hd.
  - intros _ [= <- _]. exact Hd.
  - intros Hc. apply andb_prop in Hc. destruct Hc as [Ht Hc].
    apply Z.leb_le in Ht.
    destruct (step e r) as [[r1 a]|] eqn:Hst; [|discriminate].
    destruct (run es r1) as [[r2 l2]|] eqn:Hr; [|discriminate].
    intros [= <- _].
    destruct (durations_step t e r r1 a Hs Hd Ht Hst) as [Hs1 Hd1].
    exact (IH _ _ _ _ Hs1 Hd1 Hc Hr).
Qed.

Lemma sum_from (l : list Z) : forall a, fold_left Z.add l a = a + sum l.
Proof.
  unfold sum. induction l as [|x l IH]; intros a; cbn [fold_left]; [lia|].
  rewrite (IH (a + x)), (IH (0 + x)). lia.
Qed.

Lemma sum_nonneg (l : list Z) : Forall (fun d => 0 <= d) l -> 0 <= sum l.
Proof.
  induction 1 as [|x l Hx Hl IH]; [cbn; lia|].
  unfold sum. cbn [fold_left]. rewrite sum_from. lia.
Qed.

Lemma mean_nonneg (l : list Z) :
  l <> [] -> Forall (fun d => 0 <= d) l -> (0 <= mean l)%Q.
Proof.
  intros Hne Hf. unfold mean. apply Qle_shift_div_l.
  - change 0%Q with (inject_Z 0). rewrite <- Zlt_Qlt.
    destruct l; [now elim Hne | cbn [length]; lia].
  - rewrite Qmult_0_l. change 0%Q with (inject_Z 0). rewrite <- Zle_Qle.
    now apply sum_nonneg.
Qed.

(** X13. As long as the clock does not go back, every recorded response
    time is non-negative, and so is [averageResponseTime]. *)
Theorem response_times_are_durations n mc mq t0 es r log :
  clock_runs_forward t0 es = true ->
  run es (start (new n mc mq)) = Some (r, log) ->
  Forall (fun d => 0 <= d) (responseTimes (metrics (self r))) /\
  (0 <= averageResponseTime (metrics (self r)))%Q.
Proof.
  intros Hc Hr.
  assert (Hd : Forall (fun d => 0 <= d) (responseTimes (metrics (self r)))).
  { eapply (durations_run es t0); [| |exact Hc|exact Hr]; constructor. }
  split; [exact Hd|].
  destruct (BulkheadFacts.metrics_inv_reachable n mc mq r)
    as [He Hm _]; [now exists es, log|].
  destruct (responseTimes (metrics (self r))) eqn:E.
  - rewrite (He eq_refl). apply Qle_refl.
  - rewrite (Hm ltac:(discriminate)). apply mean_nonneg; [discriminate | exact Hd].
Qed.

Lemma response_times_are_durations_witness :
  exists r log,
    run three_in_a_row (start (new "slow-service" 1 2)) = Some (r, log) /\
    responseTimes (metrics (self r)) = [10; 10] /\
    (0 <= averageResponseTime (metrics (self r)))%Q.
Proof.
  eexists. eexists. split; [vm_compute; reflexivity|].
  split; [reflexivity|].
  apply (response_times_are_durations "slow-service" 1 2 0 three_in_a_row _
           [DidStart 1; DidQueue 2; DidQueue 3; DidFinish 1 true; DidResume 2;
            DidFinish 2 true; DidResume 3]);
    vm_compute; reflexivity.
Defined.

End BulkheadMore.

(** * More about the circuit breaker *)

Module CircuitBreakerMore.
Import CircuitBreaker.

Lemma last_change_changeState s now cb :
  last_change (changeState s now cb) = Some (s, now).
Proof.
  unfold last_change, changeState. cbn [metrics stateChanges].
  rewrite map_app. cbn [map]. apply last_last.
Qed.

(** With both reads of a turn in the same millisecond the two
    definitions are those of [execute] and [onFailure]. *)
Lemma execute_reads_same now cb : execute_reads now now cb = execute now cb.
Proof. reflexivity. Qed.

Lemma onFailure_reads_same now cb : onFailure_reads now now cb = onFailure now cb.
Proof. reflexivity. Qed.

Lemma log_kept_execute t now logged cb :
  log_kept t cb -> log_kept t (fst (execute_reads now logged cb)).
Proof.
  intros [Ht Hs Ho]. unfold execute_reads.
  cbn [set_metrics state nextAttempt metrics].
  destruct (State_eqb (state cb) OPEN) eqn:E.
  - destruct (now <? nextAttempt cb); cbn [fst].
    + constructor; [exact Ht | exact Hs | exact Ho].
    + constructor.
      * exact Ht.
      * rewrite last_change_changeState. reflexivity.
      * cbn. discriminate.
  - cbn [fst]. constructor; [exact Ht | exact Hs | exact Ho].
Qed.

Lemma log_kept_onSuccess t logged cb :
  log_kept t cb -> log_kept t (onSuccess logged cb).
Proof.
  intros [Ht Hs Ho]. unfold onSuccess. cbn [set_failureCount state].
  destruct (State_eqb (state cb) HALF_OPEN) eqn:E.
  - constructor.
    + exact Ht.
    + rewrite last_change_changeState. reflexivity.
    + cbn. discriminate.
  - constructor; [exact Ht | exact Hs | exact Ho].
Qed.

Lemma log_kept_onFailure t logged now cb :
  logged <= now -> log_kept t cb -> log_kept t (onFailure_reads logged now cb).
Proof.
  intros Hord [Ht Hs Ho]. unfold onFailure_reads.
  cbn [set_metrics set_failureCount failureThreshold failureCount].
  destruct (failureThreshold cb <=? failureCount cb + 1).
  - constructor.
    + exact Ht.
    + unfold last_change, set_nextAttempt, changeState. cbn.
      rewrite map_app. cbn [map]. now rewrite last_last.
    + intros _. exists logged. split.
      * unfold last_change, set_nextAttempt, changeState. cbn.
        rewrite map_app. cbn [map]. now rewrite last_last.
      * cbn. rewrite <- Ht. lia.
  - constructor; [exact Ht | exact Hs | exact Ho].
Qed.

Lemma log_kept_apply t o cb :
  in_order o = true -> log_kept t cb -> log_kept t (apply_reads o cb).
Proof.
  destruct o as [now logged|logged|logged now]; cbn [apply_reads in_order];
    intros Hord.
  - apply log_kept_execute.
  - apply log_kept_onSuccess.
  - apply log_kept_onFailure. now apply Z.leb_le.
Qed.

Lemma applies_snoc os o cb : applies (os ++ [o]) cb = apply o (applies os cb).
Proof. unfold applies. now rewrite fold_left_app. Qed.

Lemma applies_reads_snoc os o cb :
  applies_reads (os ++ [o]) cb = apply_reads o (applies_reads os cb).
Proof. unfold applies_reads. now rewrite fold_left_app. Qed.

Lemma log_kept_applies t os cb :
  forallb in_order os = true -> log_kept t cb ->
  log_kept t (applies_reads os cb).
Proof.
  induction os as [|o os IH] using rev_ind; intros Hord H; [exact H|].
  rewrite forallb_app in Hord. apply andb_prop in Hord.
  destruct Hord as [Hos Ho]. cbn in Ho. rewrite andb_true_r in Ho.
  rewrite applies_reads_snoc. apply log_kept_apply; [exact Ho|].
  now apply IH.
Qed.

(** X6. Whatever calls have entered a breaker and whatever outcomes it
    has recorded, in whatever order, with the clock not going back
    between the reads of one turn: its state is the one of the last
    entry of [stateChanges] ([CLOSED] when there is none), and
    [getStatus()] reports a [nextAttempt] exactly while the circuit is
    [OPEN], which is then no sooner than the time of that last entry
    plus the reset timeout (the two are read from the clock one after
    the other). *)
Theorem state_changes_tell_the_state n threshold timeout t0 os :
  forallb in_order os = true ->
  let cb := applies_reads os (new n threshold timeout t0) in
  state cb = match last_change cb with
             | Some (s, _) => s
             | None => CLOSED
             end /\
  match st_nextAttempt (getStatus cb) with
  | Some next =>
      state cb = OPEN /\ next = nextAttempt cb /\
      exists opened, last_change cb = Some (OPEN, opened) /\
                     opened + timeout <= next
  | None => state cb <> OPEN
  end.
Proof.
  intros Hord. cbv zeta.
  destruct (log_kept_applies timeout os (new n threshold timeout t0) Hord)
    as [Ht Hs Ho].
  { constructor; cbn; [reflexivity | reflexivity | discriminate]. }
  split; [exact Hs|]. cbn [getStatus st_nextAttempt].
  destruct (state (applies_reads os (new n threshold timeout t0))) eqn:E;
    cbn [State_eqb]; try discriminate.
  split; [reflexivity|]. split; [reflexivity|]. exact (Ho eq_refl).
Qed.

Lemma state_changes_tell_the_state_witness :
  state (applies_reads [FailureAt 10 10; FailureAt 11 11; FailureAt 12 13]
           fresh_slow) = OPEN /\
  last_change (applies_reads [FailureAt 10 10; FailureAt 11 11; FailureAt 12 13]
                 fresh_slow) = Some (OPEN, 12) /\
  st_nextAttempt
    (getStatus (applies_reads [FailureAt 10 10; FailureAt 11 11; FailureAt 12 13]
                  fresh_slow)) = Some 20013.
Proof.
  pose proof (state_changes_tell_the_state "slow-service" 3 20000 0
                [FailureAt 10 10; FailureAt 11 11; FailureAt 12 13] eq_refl)
    as [_ H].
  cbv zeta in H.
  change (new "slow-service" 3 20000 0) with fresh_slow in H.
  destruct (st_nextAttempt
              (getStatus (applies_reads
                 [FailureAt 10 10; FailureAt 11 11; FailureAt 12 13] fresh_slow)))
    as [next|] eqn:E; [|now elim H].
  destruct H as (Hs & Hn & opened & Hl & _).
  split; [exact Hs|]. split; [|now rewrite Hn].
  rewrite Hl. vm_compute in Hl. injection Hl as <-. reflexivity.
Defined.

(** ** Calls made one after the other *)

Lemma call_keeps_config now ok now' cb :
  failureThreshold (call now ok now' cb) = failureThreshold cb /\
  timeout (call now ok now' cb) = timeout cb.
Proof.
  unfold call, execute. cbn [set_metrics state nextAttempt metrics].
  destruct (State_eqb (state cb) OPEN);
    [destruct (now <? nextAttempt cb)|]; destruct ok;
    unfold execute_settle, onSuccess, onFailure;
    cbn [set_metrics set_failureCount failureThreshold failureCount state
         changeState metrics];
    repeat match goal with
           | |- context [if ?b then _ else _] => destruct b
           end; cbn; split; reflexivity.
Qed.

Lemma settled_call now ok now' cb : settled cb -> settled (call now ok now' cb).
Proof.
  intros [Hs Hc]. unfold call, execute.
  cbn [set_metrics state nextAttempt metrics].
  destruct (state cb) eqn:E; [| |now elim Hs]; cbn [State_eqb].
  - destruct ok; unfold execute_settle, onSuccess, onFailure;
      cbn [set_metrics set_failureCount failureThreshold failureCount state].
    + rewrite E. cbn. constructor; cbn; rewrite ?E; discriminate.
    + destruct (failureThreshold cb <=? failureCount cb + 1) eqn:T.
      * apply Z.leb_le in T. constructor; cbn; [discriminate | intros _; exact T].
      * constructor; cbn; rewrite ?E; discriminate.
  - specialize (Hc eq_refl). destruct (now <? nextAttempt cb).
    + constructor; cbn; rewrite ?E; [discriminate | intros _; exact Hc].
    + destruct ok; unfold execute_settle, onSuccess, onFailure;
        cbn [set_metrics set_failureCount failureThreshold failureCount state
             changeState metrics State_eqb].
      * constructor; cbn; discriminate.
      * destruct (failureThreshold cb <=? failureCount cb + 1) eqn:T.
        -- apply Z.leb_le in T.
           constructor; cbn; [discriminate | intros _; exact T].
        -- apply Z.leb_gt in T. lia.
Qed.

Lemma calls_snoc l x cb :
  calls (l ++ [x]) cb = call (fst (fst x)) (snd (fst x)) (snd x) (calls l cb).
Proof. unfold calls. now rewrite fold_left_app. Qed.

Lemma settled_calls l cb :
  settled cb -> settled (calls l cb) /\
  failureThreshold (calls l cb) = failureThreshold cb /\
  timeout (calls l cb) = timeout cb.
Proof.
  intros H. induction l as [|x l IH] using rev_ind;
    [split; [exact H | split; reflexivity]|].
  rewrite calls_snoc. destruct IH as (IH & Ht & Hto).
  destruct (call_keeps_config (fst (fst x)) (snd (fst x)) (snd x) (calls l cb))
    as [Ht' Hto'].
  split; [now apply settled_call | split; congruence].
Qed.

(** X7. A breaker whose calls come one after the other, each over
    before the next one starts, is never left [HALF_OPEN], and once its
    circuit is [OPEN] a call made at [nextAttempt] or later is the
    trial that decides: if it fails the circuit is [OPEN] again with
    [nextAttempt] one reset timeout after the failure, if it succeeds
    the circuit is [CLOSED] with no failure counted. *)
Theorem one_at_a_time_trial_decides n threshold timeout t0 l now now' :
  let cb := calls l (new n threshold timeout t0) in
  state cb <> HALF_OPEN /\
  (state cb = OPEN -> nextAttempt cb <= now ->
     state (call now false now' cb) = OPEN /\
     nextAttempt (call now false now' cb) = now' + timeout /\
     state (call now true now' cb) = CLOSED /\
     failureCount (call now true now' cb) = 0).
Proof.
  cbv zeta.
  destruct (settled_calls l (new n threshold timeout t0)) as ([Hs Hc] & Ht & Hto).
  { constructor; cbn; discriminate. }
  split; [exact Hs|]. intros Ho Hn. specialize (Hc Ho).
  unfold call, execute. cbn [set_metrics state nextAttempt metrics].
  rewrite Ho. cbn [State_eqb].
  destruct (now <? nextAttempt (calls l (new n threshold timeout t0))) eqn:E;
    [apply Z.ltb_lt in E; lia|].
  unfold execute_settle, onSuccess, onFailure.
  cbn [set_metrics set_failureCount failureThreshold failureCount state
       changeState metrics State_eqb].
  destruct (failureThreshold (calls l (new n threshold timeout t0))
            <=? failureCount (calls l (new n threshold timeout t0)) + 1) eqn:T;
    [|apply Z.leb_gt in T; lia].
  cbn. rewrite Hto. cbn. repeat split.
Qed.

Lemma one_at_a_time_trial_decides_witness :
  state (call 30000 false 30100
           (calls [(0, false, 10); (20, false, 30); (40, false, 50);
                   (60, true, 70)]
                  fresh_slow)) = OPEN /\
  nextAttempt (call 30000 false 30100
           (calls [(0, false, 10); (20, false, 30); (40, false, 50);
                   (60, true, 70)]
                  fresh_slow)) = 50100.
Proof.
  destruct (one_at_a_time_trial_decides "slow-service" 3 20000 0
              [(0, false, 10); (20, false, 30); (40, false, 50);
               (60, true, 70)] 30000 30100) as [_ H].
  destruct (H eq_refl ltac:(cbn; lia)) as (H1 & H2 & _).
  exact (conj H1 H2).
Defined.

(** ** A circuit that is not open *)

(** X8. While the circuit is not [OPEN], every call is let through and
    none changes the state: also in [HALF_OPEN], where any number of
    calls may enter before the first trial settles. *)
Theorem not_open_lets_every_call_in times : forall cb,
  state cb <> OPEN ->
  let cb' := applies (map Enter times) cb in
  state cb' = state cb /\
  (forall now, snd (execute now cb') = Invoke) /\
  totalAttempts (metrics cb')
  = totalAttempts (metrics cb) + Z.of_nat (length times) /\
  totalRejections (metrics cb') = totalRejections (metrics cb).
Proof.
  cbv zeta.
  assert (Hone : forall cb now, state cb <> OPEN ->
            snd (execute now cb) = Invoke /\
            state (fst (execute now cb)) = state cb /\
            totalAttempts (metrics (fst (execute now cb)))
            = totalAttempts (metrics cb) + 1 /\
            totalRejections (metrics (fst (execute now cb)))
            = totalRejections (metrics cb)).
  { intros cb now H. unfold execute.
    cbn [set_metrics state nextAttempt metrics].
    destruct (state cb) eqn:E; [| now elim H |]; cbn; rewrite ?E;
      repeat split. }
  induction times as [|t times IH] using rev_ind; intros cb H.
  - cbn. repeat split; [intros now; now apply Hone | lia].
  - rewrite map_app. cbn [map]. rewrite applies_snoc. cbn [apply].
    destruct (IH cb H) as (Hs & Hf & Ha & Hr).
    assert (H' : state (applies (map Enter times) cb) <> OPEN) by now rewrite Hs.
    destruct (Hone _ t H') as (_ & Hs1 & Ha1 & Hr1).
    rewrite Hs1, Ha1, Hr1, Hs, Ha, Hr, length_app, Nat2Z.inj_add.
    cbn [length]. repeat split; try lia.
    assert (H'' : state (fst (execute t (applies (map Enter times) cb))) <> OPEN)
      by now rewrite Hs1.
    intros x. now apply Hone.
Qed.

Lemma not_open_lets_every_call_in_witness :
  state (applies (map Enter [20500; 20501; 20502])
           (fst (execute 20500 opened_slow))) = HALF_OPEN /\
  totalRejections (metrics (applies (map Enter [20500; 20501; 20502])
           (fst (execute 20500 opened_slow)))) = 0.
Proof.
  destruct (not_open_lets_every_call_in [20500; 20501; 20502]
              (fst (execute 20500 opened_slow)) ltac:(cbn; discriminate))
    as (H1 & _ & _ & H2).
  exact (conj H1 H2).
Defined.

End CircuitBreakerMore.

(** * More about the gateway *)

Module GatewayMore.
Import Gateway.

Lemma breaker_execute_counts now cb :
  let cb' := fst (CircuitBreaker.execute now cb) in
  CircuitBreaker.totalAttempts (CircuitBreaker.metrics cb')
  = CircuitBreaker.totalAttempts (CircuitBreaker.metrics cb) + 1 /\
  CircuitBreaker.totalRejections (CircuitBreaker.metrics cb')
  = CircuitBreaker.totalRejections (CircuitBreaker.metrics cb)
    + (match snd (CircuitBreaker.execute now cb) with
       | CircuitBreaker.Reject => 1
       | CircuitBreaker.Invoke => 0
       end) /\
  CircuitBreaker.totalFailures (CircuitBreaker.metrics cb')
  = CircuitBreaker.totalFailures (CircuitBreaker.metrics cb).
Proof.
  cbv zeta. unfold CircuitBreaker.execute.
  cbn [CircuitBreaker.set_metrics CircuitBreaker.state
       CircuitBreaker.nextAttempt CircuitBreaker.metrics].
  destruct (CircuitBreaker.State_eqb (CircuitBreaker.state cb)
              CircuitBreaker.OPEN);
    [destruct (now <? CircuitBreaker.nextAttempt cb)|]; cbn; lia.
Qed.

Lemma breaker_settle_counts ok now cb :
  let cb' := CircuitBreaker.execute_settle ok now cb in
  CircuitBreaker.totalAttempts (CircuitBreaker.metrics cb')
  = CircuitBreaker.totalAttempts (CircuitBreaker.metrics cb) /\
  CircuitBreaker.totalRejections (CircuitBreaker.metrics cb')
  = CircuitBreaker.totalRejections (CircuitBreaker.metrics cb) /\
  CircuitBreaker.totalFailures (CircuitBreaker.metrics cb')
  = CircuitBreaker.totalFailures (CircuitBreaker.metrics cb)
    + (if ok then 0 else 1).
Proof.
  cbv zeta. destruct ok;
    unfold CircuitBreaker.execute_settle, CircuitBreaker.onSuccess,
      CircuitBreaker.onFailure;
    cbn [CircuitBreaker.set_metrics CircuitBreaker.set_failureCount
         CircuitBreaker.failureThreshold CircuitBreaker.failureCount
         CircuitBreaker.state];
    match goal with
    | |- context [if ?b then _ else _] => destruct b
    end; cbn; lia.
Qed.

Lemma bulkhead_execute_counts now r :
  let m := Bulkhead.metrics (Bulkhead.self r) in
  let m' := Bulkhead.metrics (Bulkhead.self (fst (Bulkhead.execute now r))) in
  Bulkhead.totalRequests m' = Bulkhead.totalRequests m + 1 /\
  Bulkhead.rejectedRequests m'
  = Bulkhead.rejectedRequests m
    + (match snd (Bulkhead.execute now r) with
       | Bulkhead.Rejected => 1
       | _ => 0
       end) /\
  Bulkhead.failedRequests m' = Bulkhead.failedRequests m.
Proof.
  cbv zeta. unfold Bulkhead.execute.
  cbn [Bulkhead.set_metrics Bulkhead.maxConcurrent Bulkhead.maxQueue
       Bulkhead.activeRequests Bulkhead.queuedRequests Bulkhead.metrics].
  destruct (Bulkhead.maxConcurrent (Bulkhead.self r)
            <=? Bulkhead.activeRequests (Bulkhead.self r));
  [destruct (Bulkhead.maxQueue (Bulkhead.self r)
             <=? Z.of_nat (length (Bulkhead.queuedRequests (Bulkhead.self r))))|];
  cbn; lia.
Qed.

Lemma bulkhead_settle_counts c st ok now r :
  let m := Bulkhead.metrics (Bulkhead.self r) in
  let m' := Bulkhead.metrics
              (Bulkhead.self (Bulkhead.execute_settle c st ok now r)) in
  Bulkhead.totalRequests m' = Bulkhead.totalRequests m /\
  Bulkhead.rejectedRequests m' = Bulkhead.rejectedRequests m /\
  Bulkhead.failedRequests m'
  = Bulkhead.failedRequests m + (if ok then 0 else 1).
Proof.
  cbv zeta. unfold Bulkhead.execute_settle, Bulkhead.execute_finally.
  cbn [Bulkhead.self Bulkhead.set_metrics Bulkhead.set_active
       Bulkhead.queuedRequests Bulkhead.jobs Bulkhead.awaiting].
  destruct (Bulkhead.queuedRequests (Bulkhead.self r)), ok; cbn; lia.
Qed.

Lemma agree_step e g g' o : agree g -> step e g = Some (g', o) -> agree g'.
Proof.
  intros [Ha Hf]. destruct e as [now|now|c u now]; cbn [step].
  - destruct (Bulkhead.jobs (bulkhead g)); [|discriminate].
    unfold handle.
    pose proof (breaker_execute_counts now (breaker g)) as Hb.
    destruct (CircuitBreaker.execute now (breaker g)) as [cb gt].
    cbv zeta in Hb. cbn [fst snd] in Hb. destruct Hb as (B1 & B2 & B3).
    destruct gt.
    + intros [= <- _]. constructor; cbn [breaker bulkhead]; lia.
    + pose proof (bulkhead_execute_counts now (bulkhead g)) as Hk.
      destruct (Bulkhead.execute now (bulkhead g)) as [r a].
      cbv zeta in Hk. cbn [fst snd] in Hk. destruct Hk as (K1 & K2 & K3).
      destruct a; intros [= <- _]; constructor; cbn [breaker bulkhead];
        try lia;
        destruct (breaker_settle_counts false now cb) as (S1 & S2 & S3);
        cbn [CircuitBreaker.execute_settle] in S1, S2, S3; lia.
  - cbn [Bulkhead.step].
    destruct (Bulkhead.jobs (bulkhead g)) as [|w js]; [discriminate|].
    intros [= <- _]. constructor; cbn; [exact Ha | exact Hf].
  - cbn [Bulkhead.step].
    destruct (lookup c (Bulkhead.awaiting (bulkhead g))) as [st|];
      [|discriminate].
    intros [= <- _].
    destruct (bulkhead_settle_counts c st (fulfilled u) now (bulkhead g))
      as (K1 & K2 & K3).
    destruct (breaker_settle_counts (fulfilled u) now (breaker g))
      as (S1 & S2 & S3).
    constructor; cbn [breaker bulkhead]; lia.
Qed.

Lemma agree_run es : forall g g' os,
  agree g -> run es g = Some (g', os) -> agree g'.
Proof.
  induction es as [|e es IH]; cbn [run]; intros g g' os Hg.
  - now intros [= <- _].
  - destruct (step e g) as [[g1 o]|] eqn:Hs; [|discriminate].
    destruct (run es g1) as [[g2 os2]|] eqn:Hr; [|discriminate].
    intros [= <- _]. eapply IH; [|exact Hr]. eapply agree_step; eauto.
Qed.

(** X9. In the combined gateway the two sets of counters agree at all
    times: every request the breaker did not reject has entered the
    bulkhead, and the failures the breaker has counted are the calls
    that failed in the bulkhead plus the requests the bulkhead
    rejected. *)
Theorem breaker_and_bulkhead_agree n mc mq threshold timeout t0 es g os :
  run es (make n mc mq threshold timeout t0) = Some (g, os) ->
  Bulkhead.totalRequests (Bulkhead.metrics (Bulkhead.self (bulkhead g)))
  = CircuitBreaker.totalAttempts (CircuitBreaker.metrics (breaker g))
    - CircuitBreaker.totalRejections (CircuitBreaker.metrics (breaker g)) /\
  CircuitBreaker.totalFailures (CircuitBreaker.metrics (breaker g))
  = Bulkhead.failedRequests (Bulkhead.metrics (Bulkhead.self (bulkhead g)))
    + Bulkhead.rejectedRequests (Bulkhead.metrics (Bulkhead.self (bulkhead g))).
Proof.
  intros Hr.
  destruct (agree_run es (make n mc mq threshold timeout t0) g os) as [Ha Hf];
    [constructor; reflexivity | exact Hr |].
  split; [lia | exact Hf].
Qed.

Lemma breaker_and_bulkhead_agree_witness :
  exists g os,
    run late_success_then_failed_trial (slow 0) = Some (g, os) /\
    CircuitBreaker.totalFailures (CircuitBreaker.metrics (breaker g)) = 4 /\
    (Bulkhead.totalRequests (Bulkhead.metrics (Bulkhead.self (bulkhead g)))
     = CircuitBreaker.totalAttempts (CircuitBreaker.metrics (breaker g))
       - CircuitBreaker.totalRejections (CircuitBreaker.metrics (breaker g)) /\
     CircuitBreaker.totalFailures (CircuitBreaker.metrics (breaker g))
     = Bulkhead.failedRequests (Bulkhead.metrics (Bulkhead.self (bulkhead g)))
       + Bulkhead.rejectedRequests
           (Bulkhead.metrics (Bulkhead.self (bulkhead g)))).
Proof.
  eexists. eexists. split; [vm_compute; reflexivity|].
  split; [reflexivity|].
  eapply (breaker_and_bulkhead_agree "slow-service" 5 10 3 20000 0
            late_success_then_failed_trial).
  vm_compute. reflexivity.
Defined.

End GatewayMore.

(** * Properties of the gateway with two bulkheads *)

Module PoolsFacts.
Import Pools.

Lemma pool_set_pool s r m g : pool s (set_pool s r m g) = r.
Proof. now destruct s. Qed.

Lemma pool_set_other s r m g : pool (other s) (set_pool s r m g) = pool (other s) g.
Proof. now destruct s. Qed.

Lemma allMetrics_set_pool s r m g : allMetrics (set_pool s r m g) = m.
Proof. now destruct s. Qed.

(** What a turn does to the bulkhead of its service is a turn of that
    bulkhead, or nothing. *)
Lemma step_pool e g g' o :
  step e g = Some (g', o) ->
  exists e' a,
    Bulkhead.step e' (pool (service_of e) g)
    = Some (pool (service_of e) g', a).
Proof.
  destruct e as [s now|s now|s c u now]; cbn [step service_of].
  - destruct (Bulkhead.jobs (slowServiceBulkhead g)) eqn:Hs; [|discriminate].
    destruct (Bulkhead.jobs (fastServiceBulkhead g)) eqn:Hf; [|discriminate].
    assert (Hj : Bulkhead.jobs (pool s g) = []) by now destruct s.
    unfold handle.
    destruct (Bulkhead.execute now (pool s g)) as [r a] eqn:He.
    assert (Hstep : exists a', Bulkhead.step (Bulkhead.Call now) (pool s g)
                               = Some (r, a')).
    { cbn [Bulkhead.step]. rewrite Hj, He. eauto. }
    destruct Hstep as [a' Hstep].
    destruct a; intros [= <- _]; rewrite pool_set_pool; eauto.
  - destruct (Bulkhead.step (Bulkhead.Wake now) (pool s g))
      as [[r []]|] eqn:Hs; try discriminate.
    intros [= <- _]. rewrite pool_set_pool. eauto.
  - destruct (Bulkhead.step (Bulkhead.Settle c (Gateway.fulfilled u) now)
                            (pool s g)) as [[r a]|] eqn:Hs; [|discriminate].
    intros [= <- _]. rewrite pool_set_pool. eauto.
Qed.

Lemma step_frame e g g' o :
  step e g = Some (g', o) ->
  pool (other (service_of e)) g' = pool (other (service_of e)) g.
Proof.
  destruct e as [s now|s now|s c u now]; cbn [step service_of].
  - destruct (Bulkhead.jobs (slowServiceBulkhead g)); [|discriminate].
    destruct (Bulkhead.jobs (fastServiceBulkhead g)); [|discriminate].
    unfold handle. destruct (Bulkhead.execute now (pool s g)) as [r a].
    destruct a; intros [= <- _]; apply pool_set_other.
  - destruct (Bulkhead.step (Bulkhead.Wake now) (pool s g))
      as [[r []]|]; try discriminate.
    intros [= <- _]. apply pool_set_other.
  - destruct (Bulkhead.step (Bulkhead.Settle c (Gateway.fulfilled u) now)
                            (pool s g)) as [[r a]|]; [|discriminate].
    intros [= <- _]. apply pool_set_other.
Qed.

(** X10. The two bulkheads do not interfere: a turn for one service
    leaves the bulkhead of the other exactly as it was, and what it
    does to its own bulkhead and what the caller is answered depend on
    nothing but that bulkhead. *)
Theorem services_are_isolated e g1 g1' o1 g2 g2' o2 :
  step e g1 = Some (g1', o1) ->
  step e g2 = Some (g2', o2) ->
  pool (service_of e) g1 = pool (service_of e) g2 ->
  pool (other (service_of e)) g1' = pool (other (service_of e)) g1 /\
  pool (service_of e) g1' = pool (service_of e) g2' /\
  o1 = o2.
Proof.
  intros H1 H2 Hp. split; [exact (step_frame _ _ _ _ H1)|].
  revert H1 H2 Hp.
  destruct e as [s now|s now|s c u now]; cbn [step service_of]; intros H1 H2 Hp.
  - destruct (Bulkhead.jobs (slowServiceBulkhead g1)); [|discriminate].
    destruct (Bulkhead.jobs (fastServiceBulkhead g1)); [|discriminate].
    destruct (Bulkhead.jobs (slowServiceBulkhead g2)); [|discriminate].
    destruct (Bulkhead.jobs (fastServiceBulkhead g2)); [|discriminate].
    unfold handle in H1, H2. rewrite <- Hp in H2.
    destruct (Bulkhead.execute now (pool s g1)) as [r a].
    destruct a; injection H1 as <- <-; injection H2 as <- <-;
      rewrite !pool_set_pool; split; reflexivity.
  - rewrite <- Hp in H2.
    destruct (Bulkhead.step (Bulkhead.Wake now) (pool s g1))
      as [[r []]|]; try discriminate.
    injection H1 as <- <-. injection H2 as <- <-.
    rewrite !pool_set_pool. split; reflexivity.
  - rewrite <- Hp in H2.
    destruct (Bulkhead.step (Bulkhead.Settle c (Gateway.fulfilled u) now)
                            (pool s g1)) as [[r a]|]; [|discriminate].
    injection H1 as <- <-. injection H2 as <- <-.
    rewrite !pool_set_pool. split; reflexivity.
Qed.

Lemma services_are_isolated_witness :
  exists g1' g2' o,
    step (Request Fast 1) flooded = Some (g1', o) /\
    step (Request Fast 1) init = Some (g2', o) /\
    o = Gateway.Running 1 /\
    pool Slow g1' = pool Slow flooded /\
    pool Fast g1' = pool Fast g2'.
Proof.
  eexists. eexists. eexists.
  split; [vm_compute; reflexivity|]. split; [vm_compute; reflexivity|].
  split; [reflexivity|].
  match goal with
  | |- pool Slow ?a = _ /\ pool Fast _ = pool Fast ?b =>
      assert (H1 : step (Request Fast 1) flooded = Some (a, Gateway.Running 1))
        by (vm_compute; reflexivity);
      assert (H2 : step (Request Fast 1) init = Some (b, Gateway.Running 1))
        by (vm_compute; reflexivity)
  end.
  assert (Hp : pool (service_of (Request Fast 1)) flooded
               = pool (service_of (Request Fast 1)) init)
    by (vm_compute; reflexivity).
  destruct (services_are_isolated _ _ _ _ _ _ _ H1 H2 Hp) as (Hf & Hs & _).
  split; [exact Hf | exact Hs].
Defined.

(** ** The tallies of [allMetrics] *)

Lemma execute_books now r :
  let m := Bulkhead.metrics (Bulkhead.self r) in
  let m' := Bulkhead.metrics (Bulkhead.self (fst (Bulkhead.execute now r))) in
  Bulkhead.totalRequests m' = Bulkhead.totalRequests m + 1 /\
  Bulkhead.successfulRequests m' = Bulkhead.successfulRequests m /\
  Bulkhead.failedRequests m' = Bulkhead.failedRequests m /\
  Bulkhead.rejectedRequests m'
  = Bulkhead.rejectedRequests m
    + (match snd (Bulkhead.execute now r) with
       | Bulkhead.Rejected => 1
       | _ => 0
       end).
Proof.
  cbv zeta. unfold Bulkhead.execute.
  cbn [Bulkhead.set_metrics Bulkhead.maxConcurrent Bulkhead.maxQueue
       Bulkhead.activeRequests Bulkhead.queuedRequests Bulkhead.metrics].
  destruct (Bulkhead.maxConcurrent (Bulkhead.self r)
            <=? Bulkhead.activeRequests (Bulkhead.self r));
  [destruct (Bulkhead.maxQueue (Bulkhead.self r)
             <=? Z.of_nat (length (Bulkhead.queuedRequests (Bulkhead.self r))))|];
  cbn; lia.
Qed.

Lemma settle_books c st ok now r :
  let m := Bulkhead.metrics (Bulkhead.self r) in
  let m' := Bulkhead.metrics
              (Bulkhead.self (Bulkhead.execute_settle c st ok now r)) in
  Bulkhead.totalRequests m' = Bulkhead.totalRequests m /\
  Bulkhead.successfulRequests m'
  = Bulkhead.successfulRequests m + (if ok then 1 else 0) /\
  Bulkhead.failedRequests m'
  = Bulkhead.failedRequests m + (if ok then 0 else 1) /\
  Bulkhead.rejectedRequests m' = Bulkhead.rejectedRequests m.
Proof.
  cbv zeta. unfold Bulkhead.execute_settle, Bulkhead.execute_finally.
  cbn [Bulkhead.self Bulkhead.set_metrics Bulkhead.set_active
       Bulkhead.queuedRequests Bulkhead.jobs Bulkhead.awaiting].
  destruct (Bulkhead.queuedRequests (Bulkhead.self r)), ok; cbn; lia.
Qed.

Ltac tally :=
  constructor; try (intros []);
  unfold books_of, requests_of, successes_of, failures_of;
  cbn; lia.

Lemma tallied_step e g g' o : tallied g -> step e g = Some (g', o) -> tallied g'.
Proof.
  intros [Ht Hr Hs Hf Hj].
  pose proof (Hr Slow) as HrS. pose proof (Hr Fast) as HrF.
  pose proof (Hs Slow) as HsS. pose proof (Hs Fast) as HsF.
  pose proof (Hf Slow) as HfS. pose proof (Hf Fast) as HfF.
  clear Hr Hs Hf.
  unfold books_of, requests_of, successes_of, failures_of in *.
  cbn [pool] in *.
  destruct e as [s now|s now|s c u now]; cbn [step].
  - destruct (Bulkhead.jobs (slowServiceBulkhead g)); [|discriminate].
    destruct (Bulkhead.jobs (fastServiceBulkhead g)); [|discriminate].
    unfold handle. pose proof (execute_books now (pool s g)) as Hb.
    destruct (Bulkhead.execute now (pool s g)) as [r a].
    cbv zeta in Hb. cbn [fst snd] in Hb. destruct Hb as (B1 & B2 & B3 & B4).
    destruct s; cbn [pool] in *; destruct a; intros [= <- _]; tally.
  - cbn [Bulkhead.step].
    destruct (Bulkhead.jobs (pool s g)) as [|w js]; [discriminate|].
    intros [= <- _]. destruct s; cbn [pool] in *; tally.
  - cbn [Bulkhead.step].
    destruct (lookup c (Bulkhead.awaiting (pool s g))) as [st|];
      [|discriminate].
    intros [= <- _].
    destruct (settle_books c st (Gateway.fulfilled u) now (pool s g))
      as (B1 & B2 & B3 & B4).
    destruct s; cbn [pool] in *; destruct (Gateway.fulfilled u); tally.
Qed.

Lemma tallied_run es : forall g g' os,
  tallied g -> run es g = Some (g', os) -> tallied g'.
Proof.
  induction es as [|e es IH]; cbn [run]; intros g g' os Hg.
  - now intros [= <- _].
  - destruct (step e g) as [[g1 o]|] eqn:Hs; [|discriminate].
    destruct (run es g1) as [[g2 os2]|] eqn:Hr; [|discriminate].
    intros [= <- _]. eapply IH; [|exact Hr]. eapply tallied_step; eauto.
Qed.

(** X11. [allMetrics] tallies with the two bulkheads at all times: per
    service, the requests are the calls of its bulkhead, the successes
    its successful calls, and the failures its failed calls plus its
    rejected ones (a rejection counts as a failure of the service too);
    [bulkheadRejections] is the sum of the rejections of both
    bulkheads, and [totalRequests] the sum of the requests of both
    services. *)
Theorem allMetrics_tally es g os :
  run es init = Some (g, os) ->
  totalRequests (allMetrics g)
  = slowServiceRequests (allMetrics g) + fastServiceRequests (allMetrics g) /\
  (forall s,
     requests_of s (allMetrics g) = Bulkhead.totalRequests (books_of s g) /\
     successes_of s (allMetrics g)
     = Bulkhead.successfulRequests (books_of s g) /\
     failures_of s (allMetrics g)
     = Bulkhead.failedRequests (books_of s g)
       + Bulkhead.rejectedRequests (books_of s g)) /\
  bulkheadRejections (allMetrics g)
  = Bulkhead.rejectedRequests (books_of Slow g)
    + Bulkhead.rejectedRequests (books_of Fast g).
Proof.
  intros Hr.
  destruct (tallied_run es init g os) as [Ht Hq Hs Hf Hj];
    [constructor; try (intros []); reflexivity | exact Hr |].
  split; [exact Ht|]. split; [|exact Hj].
  intros s. split; [apply Hq | split; [apply Hs | apply Hf]].
Qed.

Lemma allMetrics_tally_witness :
  exists g os,
    run (slow_flooded ++ [Request Slow 1; Respond Slow 1 Gateway.Failed 9])
        init = Some (g, os) /\
    slowServiceFailure (allMetrics g) = 2 /\
    bulkheadRejections (allMetrics g) = 1 /\
    bulkheadRejections (allMetrics g)
    = Bulkhead.rejectedRequests (books_of Slow g)
      + Bulkhead.rejectedRequests (books_of Fast g).
Proof.
  eexists. eexists. split; [vm_compute; reflexivity|].
  split; [reflexivity|]. split; [reflexivity|].
  eapply (allMetrics_tally
            (slow_flooded ++ [Request Slow 1; Respond Slow 1 Gateway.Failed 9])).
  vm_compute. reflexivity.
Defined.

(** ** Each service within its own limits *)

Lemma step_any_pool e g g' o s :
  step e g = Some (g', o) ->
  pool s g' = pool s g \/
  exists e' a, Bulkhead.step e' (pool s g) = Some (pool s g', a).
Proof.
  intros H. pose proof (step_pool _ _ _ _ H) as Hown.
  pose proof (step_frame _ _ _ _ H) as Hframe.
  destruct s, (service_of e); cbn [other] in Hframe; auto.
Qed.

Lemma run_pool es s : forall g g' os,
  run es g = Some (g', os) ->
  exists es' log, Bulkhead.run es' (pool s g) = Some (pool s g', log).
Proof.
  induction es as [|e es IH]; cbn [run]; intros g g' os.
  - intros [= <- _]. exists [], []. reflexivity.
  - destruct (step e g) as [[g1 o]|] eqn:Hs; [|discriminate].
    destruct (run es g1) as [[g2 os2]|] eqn:Hr; [|discriminate].
    intros [= <- _]. destruct (IH _ _ _ Hr) as (es' & log & Hrun).
    destruct (step_any_pool _ _ _ _ s Hs) as [Heq|(e' & a & Hb)].
    + rewrite Heq in Hrun. eauto.
    + exists (e' :: es'), (a :: log). cbn [Bulkhead.run].
      now rewrite Hb, Hrun.
Qed.

Lemma pool_reachable es g os s :
  run es init = Some (g, os) ->
  Bulkhead.reachable (name_of s) (slots_of s) (places_of s) (pool s g).
Proof.
  intros Hr. destruct (run_pool es s _ _ _ Hr) as (es' & log & Hrun).
  exists es', log. destruct s; exact Hrun.
Qed.

(** X12. However many requests either service receives, each bulkhead
    of the gateway stays within its own limits (5 running and 10
    queued for the slow service, 20 and 50 for the fast one), and a
    request is answered 429 exactly when the bulkhead of its own
    service has every slot taken and its queue full: the load of the
    other service never gets a request rejected. *)
Theorem each_service_has_its_own_limits es g os s now :
  run es init = Some (g, os) ->
  0 <= Bulkhead.activeRequests (Bulkhead.self (pool s g)) <= slots_of s /\
  Z.of_nat (length (Bulkhead.queuedRequests (Bulkhead.self (pool s g))))
    <= places_of s /\
  (snd (handle s now g) = Gateway.Replied Gateway.BulkheadRejected <->
   Bulkhead.activeRequests (Bulkhead.self (pool s g)) = slots_of s /\
   Z.of_nat (length (Bulkhead.queuedRequests (Bulkhead.self (pool s g))))
   = places_of s).
Proof.
  intros Hr.
  assert (Hc : 0 <= slots_of s) by (destruct s; cbn; lia).
  assert (Hq : 0 <= places_of s) by (destruct s; cbn; lia).
  destruct (BulkheadFacts.inv_reachable _ _ _ _ Hc Hq
              (pool_reachable es g os s Hr)) as [Hmc Hmq Ha Hs Hl].
  split; [lia|]. split; [lia|].
  unfold handle, Bulkhead.execute.
  cbn [Bulkhead.set_metrics Bulkhead.maxConcurrent Bulkhead.maxQueue
       Bulkhead.activeRequests Bulkhead.queuedRequests Bulkhead.metrics].
  rewrite Hmc, Hmq.
  destruct (slots_of s <=? Bulkhead.activeRequests (Bulkhead.self (pool s g)))
    eqn:E1;
  destruct (places_of s
            <=? Z.of_nat (length (Bulkhead.queuedRequests
                                    (Bulkhead.self (pool s g))))) eqn:E2;
  cbn [andb snd Bulkhead.execute_run];
  rewrite ?Z.leb_le, ?Z.leb_gt in *;
  (split; [intros H; try discriminate H; lia
          | intros [? ?]; try reflexivity; lia]).
Qed.

Lemma each_service_has_its_own_limits_witness :
  snd (handle Slow 1 flooded) = Gateway.Replied Gateway.BulkheadRejected /\
  snd (handle Fast 1 flooded) = Gateway.Running 1 /\
  Bulkhead.activeRequests (Bulkhead.self (pool Slow flooded)) = slots_of Slow.
Proof.
  assert (Hr : exists os, run slow_flooded init = Some (flooded, os))
    by (eexists; vm_compute; reflexivity).
  destruct Hr as [os Hr].
  destruct (each_service_has_its_own_limits slow_flooded flooded os Slow 1 Hr)
    as (_ & _ & Hiff).
  split; [reflexivity|]. split; [reflexivity|].
  exact (proj1 (proj1 Hiff eq_refl)).
Defined.

End PoolsFacts.
